(** * Radially symmetric windows: skimage/filters/window.py

    A shallow embedding of the four functions of the module
    ([_rotational_mapping], [_ndrotational_mapping], [get_window2],
    [get_windownd]) together with the part of numpy they call.

    Numbers are the ones the program computes with: [np.float64] is the
    kernel's binary64 type [float], [np.int64] and Python integers are [Z].
    Exceptions are values of [exn]; every function that can raise returns a
    [result]. *)

From Stdlib Require Import String ZArith List Bool Lia Arith Floats.
Import ListNotations.

(** ** Exceptions and results *)

(** The Python exceptions that can leave the module, named after the call
    that raises them. *)
Inductive exn : Type :=
| SafeAsIntError      (* ValueError of safe_as_int: integer argument required *)
| GetWindowError      (* whatever scipy.signal.get_window raises *)
| ArangeError         (* ValueError of np.arange: length cannot be computed *)
| ConcatenateError    (* ValueError of np.hstack: need at least one array *)
| AxisError           (* numpy AxisError: axis out of bounds *)
| IndexError          (* IndexError: index out of bounds for an axis *)
| ReshapeError.       (* ValueError of reshape: size does not fit the shape *)

(** The error taxonomy of the specification (section 7). *)
Inductive error_kind : Type :=
| InvalidSizeError
| UnknownWindowError
| DimensionMismatchError.

(** The kind of an exception raised by the module itself or by numpy; what
    the window generator raises is classified by the generator. *)
Definition kind_of (e : exn) : option error_kind :=
  match e with
  | SafeAsIntError | ArangeError => Some InvalidSizeError
  | GetWindowError => None
  | ConcatenateError | AxisError | IndexError | ReshapeError =>
      Some DimensionMismatchError
  end.

Inductive result (A : Type) : Type :=
| Ok (a : A)
| Raise (e : exn).

Arguments Ok {A} a.
Arguments Raise {A} e.

Definition bind {A B : Type} (r : result A) (k : A -> result B) : result B :=
  match r with
  | Ok a => k a
  | Raise e => Raise e
  end.

Notation "x <- r ;; k" := (bind r (fun x => k))
  (at level 61, r at next level, right associativity).

Definition returns {A : Type} (r : result A) : bool :=
  match r with Ok _ => true | Raise _ => false end.

(** ** Python numbers *)

(** A [size] argument is a Python number: an [int] or a [float]. *)
Inductive pynum : Type :=
| PyInt (z : Z)
| PyFloat (f : float).

(** int -> float64, rounded to nearest even. *)
Definition Z2float (z : Z) : float :=
  SF2Prim (binary_normalize prec emax z 0 false).

(** The integer part of a finite float (rounded towards zero) and whether
    the float has a fractional part; [None] for NaN and the infinities. *)
Definition float_trunc (f : float) : option (Z * bool) :=
  match Prim2SF f with
  | S754_zero _ => Some (0%Z, false)
  | S754_finite s m e =>
      if (0 <=? e)%Z
      then Some (cond_Zopp s (Z.pos m * 2 ^ e), false)
      else Some (cond_Zopp s (Z.pos m / 2 ^ (- e)),
                 negb (Z.pos m mod 2 ^ (- e) =? 0)%Z)
  | S754_infinity _ | S754_nan => None
  end.

Definition float_ceil (f : float) : option Z :=
  match float_trunc f with
  | Some (z, frac) => Some (if frac && (0 <? f)%float then z + 1 else z)%Z
  | None => None
  end.

(** Modelled from the spec: the integer coercion helper
    [skimage._shared.utils.safe_as_int], imported by the module and defined
    elsewhere in the package.  Section 6: it "converts a size-like value to
    an exact integer, failing if the value has a non-zero fractional
    part". *)
Definition safe_as_int (val : pynum) : result Z :=
  match val with
  | PyInt z => Ok z
  | PyFloat f =>
      match float_trunc f with
      | Some (z, false) => Ok z
      | Some (_, true) | None => Raise SafeAsIntError
      end
  end.

(** ** Two-dimensional arrays *)

(** An [(M, N)] ndarray: [N] is kept apart from the rows so that the shapes
    [(0, N)] and [(M, 0)] exist. *)
Record array2 (A : Type) : Type := Array2 {
  ncols : nat;
  rows : list (list A)
}.

Arguments Array2 {A} ncols rows.
Arguments ncols {A} a.
Arguments rows {A} a.

Definition nrows {A : Type} (a : array2 A) : nat := length (rows a).

Definition wf2 {A : Type} (a : array2 A) : Prop :=
  Forall (fun r => length r = ncols a) (rows a).

(** Coordinate arrays come in two element types. *)
Inductive coord_array : Type :=
| Int64Array (a : array2 Z)
| Float64Array (a : array2 float).

Definition map2d {A B : Type} (f : A -> B) (a : array2 A) : array2 B :=
  Array2 (ncols a) (map (map f) (rows a)).

(** What arithmetic with a Python float sees of a coordinate array: the
    elements converted to float64. *)
Definition to_float64 (a : coord_array) : array2 float :=
  match a with
  | Int64Array a => map2d Z2float a
  | Float64Array a => a
  end.

Definition pick {A : Type} (j : nat) (r : list A) : list A :=
  match nth_error r j with
  | Some x => [x]
  | None => []
  end.

(** [a[:, j]] *)
Definition column {A : Type} (j : nat) (a : array2 A) : result (list A) :=
  if (j <? ncols a)%nat then Ok (flat_map (pick j) (rows a))
  else Raise IndexError.

(** Element-wise float operations of numpy. *)
Definition np_sub_scalar (xs : list float) (c : float) : list float :=
  map (fun x => (x - c)%float) xs.

(** [xs ** 2]: numpy squares by multiplying. *)
Definition np_square (xs : list float) : list float :=
  map (fun x => (x * x)%float) xs.

Fixpoint np_add (xs ys : list float) : list float :=
  match xs, ys with
  | x :: xs', y :: ys' => (x + y)%float :: np_add xs' ys'
  | _, _ => []
  end.

Definition np_sqrt (xs : list float) : list float := map sqrt xs.

Definition np_zeros_like (xs : list float) : list float :=
  map (fun _ => 0%float) xs.

Fixpoint np_column_stack (cs rs : list float) : list (list float) :=
  match cs, rs with
  | c :: cs', r :: rs' => [c; r] :: np_column_stack cs' rs'
  | _, _ => []
  end.

(** ** The radial coordinate mappers *)

(** [center = (window_size / 2) - 0.5] *)
Definition center_of (window_size : Z) : float :=
  (Z2float window_size / 2 - 0.5)%float.

Definition _rotational_mapping (output_coords : coord_array)
    (window_size : pynum) : result (array2 float) :=
  window_size <- safe_as_int window_size ;;
  let center := center_of window_size in
  c0 <- column 0 (to_float64 output_coords) ;;
  c1 <- column 1 (to_float64 output_coords) ;;
  let rr := np_sqrt (np_add (np_square (np_sub_scalar c0 center))
                            (np_square (np_sub_scalar c1 center))) in
  let cc := np_zeros_like rr in
  let coords := Array2 2 (np_column_stack cc rr) in
  Ok coords.

(** [xs.sum()] of one row, added element after element: numpy accumulates
    from the first element on, and the sum of no element is [0.0].  This is
    the order of numpy's reduction for every row of fewer than eight elements,
    and for the rows of a column-major array of two rows or more, which numpy
    reduces column by column; [row_sum] below has the order for the other
    arrays. *)
Definition np_sum (xs : list float) : float :=
  match xs with
  | [] => 0%float
  | x :: xs' => fold_left (fun acc y => (acc + y)%float) xs' x
  end.

(** float64 -> int64 as numpy stores it: the fraction is dropped; NaN, the
    infinities and values out of range have no int64 value and become the
    most negative one. *)
Definition float_to_int64 (f : float) : Z :=
  match float_trunc f with
  | Some (z, _) =>
      if ((- 2 ^ 63 <=? z) && (z <? 2 ^ 63))%Z then z else (- 2 ^ 63)%Z
  | None => (- 2 ^ 63)%Z
  end.

(** [np.zeros_like]: same shape, same element type. *)
Definition zeros_like (a : coord_array) : coord_array :=
  match a with
  | Int64Array a => Int64Array (map2d (fun _ => 0%Z) a)
  | Float64Array a => Float64Array (map2d (fun _ => 0%float) a)
  end.

Definition coord_ncols (a : coord_array) : nat :=
  match a with
  | Int64Array a => ncols a
  | Float64Array a => ncols a
  end.

Definition coord_nrows (a : coord_array) : nat :=
  match a with
  | Int64Array a => nrows a
  | Float64Array a => nrows a
  end.

Fixpoint replace_heads {A : Type} (rs : list (list A)) (vs : list A)
  : list (list A) :=
  match rs, vs with
  | r :: rs', v :: vs' => (v :: tl r) :: replace_heads rs' vs'
  | _, _ => []
  end.

(** [coords[:, 0] = values]: the values are cast to the element type of
    [coords]. *)
Definition assign_column0 (coords : coord_array) (values : list float)
  : result coord_array :=
  if (0 <? coord_ncols coords)%nat then
    match coords with
    | Int64Array a =>
        Ok (Int64Array
              (Array2 (ncols a)
                 (replace_heads (rows a) (map float_to_int64 values))))
    | Float64Array a =>
        Ok (Float64Array (Array2 (ncols a) (replace_heads (rows a) values)))
    end
  else Raise IndexError.

(** The mapper with the row sums added element after element: its result on
    a column-major array of two rows or more (what [get_windownd] passes) and
    on any array of fewer than eight columns. *)
Definition _ndrotational_mapping (output_coords : coord_array)
    (window_size : pynum) : result coord_array :=
  window_size <- safe_as_int window_size ;;
  let center := center_of window_size in
  let coords := zeros_like output_coords in
  let sums :=
    map (fun r => np_sum (np_square (np_sub_scalar r center)))
        (rows (to_float64 output_coords)) in
  assign_column0 coords (np_sqrt sums).

(** ** The order of numpy's row sums *)

(** The memory order of the coordinate array: row after row (numpy's
    default), or column after column (a transposed array, as in
    [get_windownd]).  [output_coords - center] and its square are new arrays
    of the same order. *)
Inductive memory_order : Type := C_order | F_order.

(** numpy's pairwise summation of a run of [n] elements (its inner loop of
    [add.reduce]).  Fewer than eight elements are added one after the other,
    from [-0.0] on, which leaves the first element as it is.  Up to 128
    elements go to eight accumulators [r0 .. r7], element [i] to accumulator
    [i mod 8]; the accumulators are added as a tree and the [n mod 8] last
    elements one after the other.  A longer run is cut at [n/2], rounded down
    to a multiple of eight, and the sums of the two parts are added. *)
Definition sum8 (r : list float) : float :=
  match r with
  | [r0; r1; r2; r3; r4; r5; r6; r7] =>
      (((r0 + r1) + (r2 + r3)) + ((r4 + r5) + (r6 + r7)))%float
  | _ => fold_left (fun acc y => (acc + y)%float) r neg_zero
  end.

(** [k] times [r[j] += a[i + j]] for [j = 0 .. 7], [i] going up by eight. *)
Fixpoint add_blocks (k : nat) (r xs : list float) : list float * list float :=
  match k with
  | O => (r, xs)
  | S k' => add_blocks k' (np_add r (firstn 8 xs)) (skipn 8 xs)
  end.

Definition block_sum (xs : list float) : float :=
  let (r, rest) := add_blocks (length xs / 8 - 1) (firstn 8 xs) (skipn 8 xs) in
  fold_left (fun acc y => (acc + y)%float) rest (sum8 r).

(** The recursion halves the run: [length xs] is fuel enough
    ([pairwise_sum_fuel]). *)
Fixpoint pairwise_sum (fuel : nat) (xs : list float) : float :=
  let n := length xs in
  if (n <? 8)%nat then fold_left (fun acc y => (acc + y)%float) xs neg_zero
  else if (n <=? 128)%nat then block_sum xs
  else match fuel with
       | O => block_sum xs
       | S fuel' =>
           let n2 := (n / 2 - (n / 2) mod 8)%nat in
           (pairwise_sum fuel' (firstn n2 xs)
            + pairwise_sum fuel' (skipn n2 xs))%float
       end.

(** numpy reduces along the axis of the smaller stride in its inner loop:
    [sum(axis=1)] of a row-major array sums each row by [pairwise_sum]; for a
    column-major array it adds column after column, so each row is added
    element after element.  An array of one row is of both orders, and is
    summed as a row. *)
Definition reduces_by_rows (order : memory_order) (nrows : nat) : bool :=
  match order with
  | C_order => true
  | F_order => (nrows <=? 1)%nat
  end.

Definition row_sum (by_rows : bool) (xs : list float) : float :=
  match xs with
  | [] => 0%float
  | _ :: _ => if by_rows then pairwise_sum (length xs) xs else np_sum xs
  end.

(** [_ndrotational_mapping] on an array of either memory order. *)
Definition _ndrotational_mapping_ordered (order : memory_order)
    (output_coords : coord_array) (window_size : pynum) : result coord_array :=
  window_size <- safe_as_int window_size ;;
  let center := center_of window_size in
  let coords := zeros_like output_coords in
  let by_rows := reduces_by_rows order (coord_nrows output_coords) in
  let sums :=
    map (fun r => row_sum by_rows (np_square (np_sub_scalar r center)))
        (rows (to_float64 output_coords)) in
  assign_column0 coords (np_sqrt sums).

(** ** N-dimensional arrays *)

(** An ndarray of any rank: its shape and its elements in C order. *)
Record ndarray (A : Type) : Type := NdArray {
  shape : list nat;
  data : list A
}.

Arguments NdArray {A} shape data.
Arguments shape {A} n.
Arguments data {A} n.

Definition prod_list (ds : list nat) : nat := fold_right Nat.mul 1%nat ds.

(** The [i]-th of consecutive blocks of [n] elements. *)
Definition block {A : Type} (n i : nat) (l : list A) : list A :=
  firstn n (skipn (i * n) l).

Definition split_blocks {A : Type} (k n : nat) (l : list A) : list (list A) :=
  map (fun i => block n i l) (seq 0 k).

(** All index tuples of a shape, last axis fastest. *)
Fixpoint indices (sh : list nat) : list (list nat) :=
  match sh with
  | [] => [[]]
  | d :: sh' => flat_map (fun i => map (cons i) (indices sh')) (seq 0 d)
  end.

(** [np.arange(size)] *)
Definition arange_int (n : Z) : list Z :=
  map Z.of_nat (seq 0 (Z.to_nat n)).

Definition arange_float (f : float) : result (list float) :=
  match float_ceil f with
  | Some n => Ok (map (fun i => Z2float (Z.of_nat i)) (seq 0 (Z.to_nat n)))
  | None => Raise ArangeError
  end.

(** [np.meshgrid] of the arrays [xi], with its default [indexing='xy']: with
    two inputs or more the first two axes are exchanged. *)
Definition meshgrid_shape (lens : list nat) : list nat :=
  match lens with
  | n0 :: n1 :: rest => n1 :: n0 :: rest
  | _ => lens
  end.

Definition meshgrid_axis (ndim m : nat) : nat :=
  if (ndim <=? 1)%nat then m
  else match m with
       | 0%nat => 1%nat
       | 1%nat => 0%nat
       | _ => m
       end.

Definition meshgrid {A : Type} (xi : list (list A)) : list (ndarray A) :=
  let sh := meshgrid_shape (map (@length A) xi) in
  map (fun mx : nat * list A =>
         let (m, x) := mx in
         NdArray sh
           (flat_map (fun idx => pick (nth (meshgrid_axis (length xi) m) idx 0%nat) x)
                     (indices sh)))
      (combine (seq 0 (length xi)) xi).

Definition same_but_axis (axis : nat) (s t : list nat) : bool :=
  (length s =? length t)%nat
  && forallb (fun p : nat * nat => Nat.eqb (fst p) (snd p))
       (combine (firstn axis s) (firstn axis t))
  && forallb (fun p : nat * nat => Nat.eqb (fst p) (snd p))
       (combine (skipn (S axis) s) (skipn (S axis) t)).

(** [np.concatenate(arrs, axis)] *)
Definition concatenate {A : Type} (arrs : list (ndarray A)) (axis : nat)
  : result (ndarray A) :=
  match arrs with
  | [] => Raise ConcatenateError
  | a0 :: _ =>
      if (axis <? length (shape a0))%nat then
        if forallb (fun a => same_but_axis axis (shape a0) (shape a)) arrs
        then
          let outer := prod_list (firstn axis (shape a0)) in
          let width a := prod_list (skipn axis (shape a)) in
          Ok (NdArray
                (firstn axis (shape a0)
                 ++ [list_sum (map (fun a => nth axis (shape a) 0%nat) arrs)]
                 ++ skipn (S axis) (shape a0))
                (flat_map
                   (fun i => flat_map (fun a => block (width a) i (data a)) arrs)
                   (seq 0 outer)))
        else Raise ConcatenateError
      else Raise AxisError
  end.

(** [np.hstack(tup)]: one-dimensional arrays are joined along axis 0, all
    others along axis 1. *)
Definition hstack {A : Type} (tup : list (ndarray A)) : result (ndarray A) :=
  match tup with
  | a0 :: _ =>
      if (length (shape a0) =? 1)%nat then concatenate tup 0
      else concatenate tup 1
  | [] => concatenate tup 1
  end.

(** [a.swapaxes(0, 1)] *)
Definition swapaxes01 {A : Type} (a : ndarray A) : result (ndarray A) :=
  match shape a with
  | d0 :: d1 :: rest =>
      let b := prod_list rest in
      Ok (NdArray (d1 :: d0 :: rest)
            (flat_map
               (fun p => flat_map (fun i => block b (i * d1 + p) (data a))
                                  (seq 0 d0))
               (seq 0 d1)))
  | _ => Raise AxisError
  end.

(** [a.reshape(k, -1)] *)
Definition reshape_rows {A : Type} (k : nat) (a : ndarray A)
  : result (array2 A) :=
  let total := length (data a) in
  if ((k =? 0) || negb (total mod k =? 0))%nat then Raise ReshapeError
  else Ok (Array2 (total / k) (split_blocks k (total / k) (data a))).

(** [a.T] of a two-dimensional array *)
Definition transpose {A : Type} (a : array2 A) : array2 A :=
  Array2 (nrows a)
    (map (fun j => flat_map (pick j) (rows a)) (seq 0 (ncols a))).

Fixpoint zip_with {A B C : Type} (f : A -> B -> C) (xs : list A)
    (ys : list B) : list C :=
  match xs, ys with
  | x :: xs', y :: ys' => f x y :: zip_with f xs' ys'
  | _, _ => []
  end.

(** An [(M, N, K)] ndarray. *)
Record array3 (A : Type) : Type := Array3 {
  dim1 : nat;
  dim2 : nat;
  cells : list (list (list A))
}.

Arguments Array3 {A} dim1 dim2 cells.
Arguments dim1 {A} a.
Arguments dim2 {A} a.
Arguments cells {A} a.

(** [np.dstack((a, b))] of two [(M, N)] arrays: the [(M, N, 2)] array whose
    cell [(i, j)] is [[a[i, j]; b[i, j]]]. *)
Definition dstack {A : Type} (a b : array2 A) : result (array3 A) :=
  if ((nrows a =? nrows b) && (ncols a =? ncols b))%nat
  then Ok (Array3 (ncols a) 2
             (zip_with (zip_with (fun x y => [x; y])) (rows a) (rows b)))
  else Raise ConcatenateError.

(** The coordinate list of line 116:
    [hstack] of the [meshgrid] of [L], then [.swapaxes(0, 1)],
    [.reshape(ndim, -1)] and [.T]. *)
Definition lattice {A : Type} (L : list (list A)) (ndim : nat)
  : result (array2 A) :=
  stacked <- hstack (meshgrid L) ;;
  swapped <- swapaxes01 stacked ;;
  reshaped <- reshape_rows ndim swapped ;;
  Ok (transpose reshaped).

(** Lines 115-117: [L], the lattice of its points and [astype(np.double)].
    [np.arange(size)] is evaluated once per axis, so not at all when
    [range(ndim)] is empty. *)
Definition outcoords_of (size : pynum) (ndim : Z) : result (array2 float) :=
  let n := Z.to_nat ndim in
  match n, size with
  | O, _ => lattice (@nil (list float)) n
  | _, PyInt s =>
      c <- lattice (repeat (arange_int s) n) n ;;
      Ok (map2d Z2float c)
  | _, PyFloat f =>
      a <- arange_float f ;;
      lattice (repeat a n) n
  end.

(** ** The window builders *)

(** The first argument of [scipy.signal.get_window]: a name, a number, or a
    name with parameters. *)
Inductive window_spec : Type :=
| WName (name : string)
| WFloat (beta : float)
| WTuple (name : string) (params : list float).

Section Builders.

(** [scipy.signal.get_window(window, size, fftbins=False)]; [None] when
    it raises. *)
Variable get_window : window_spec -> pynum -> option (list float).

(** The resampling kernel of the warp routine: the value of the source
    image at a fractional position [(row, col)], whatever the routine
    does between pixels and outside the image. *)
Variable interpolate : array2 float -> float -> float -> float.

Definition call_get_window (window : window_spec) (size : pynum)
  : result (list float) :=
  match get_window window size with
  | Some w => Ok w
  | None => Raise GetWindowError
  end.

(** [w[safe_as_int(np.floor(w.shape[0]/2)):]]: the floor of half a length
    [n] is the integer [n // 2] (the float division and the floor are exact
    for every length an array can have), so the coercion cannot fail. *)
Definition outer_half (w : list float) : list float :=
  skipn (length w / 2) w.

(** Pixel positions along an axis of the output image. *)
Definition pixel_range (extent : pynum) : result (list float) :=
  match extent with
  | PyInt n => Ok (map Z2float (arange_int n))
  | PyFloat f => arange_float f
  end.

Definition sample (image : array2 float) (p : list float) : list float :=
  match p with
  | [c; r] => [interpolate image r c]
  | _ => []
  end.

(** Modelled from the spec: [skimage.transform.warp], imported by the module
    and defined elsewhere in the package.  Section 6: it is called as
    [warp(image, inverse_map, map_args, output_shape)] and "for each
    output pixel, calls [inverse_map] to find the source coordinate and
    interpolates"; the coordinates are [(col, row)] pairs (section 4.1).
    The interpolation itself is the parameter [interpolate]. *)
Definition warp (image : array2 float)
    (inverse_map : coord_array -> pynum -> result (array2 float))
    (map_args : pynum) (output_shape : pynum * pynum)
  : result (array2 float) :=
  rs <- pixel_range (fst output_shape) ;;
  cs <- pixel_range (snd output_shape) ;;
  let output_coords :=
    Array2 2 (flat_map (fun r => map (fun c => [c; r]) cs) rs) in
  source_coords <- inverse_map (Float64Array output_coords) map_args ;;
  let values := flat_map (sample image) (rows source_coords) in
  if (length values =? length rs * length cs)%nat
  then Ok (Array2 (length cs) (split_blocks (length rs) (length cs) values))
  else Raise ReshapeError.

Definition get_window2 (window : window_spec) (size : pynum)
  : result (array2 float) :=
  w <- call_get_window window size ;;
  let w := outer_half w in
  let w := Array2 1 (map (fun x => [x]) w) in
  warp w _rotational_mapping size (size, size).

(** The loop of lines 121-122 only reshapes [w], which is not returned. *)
Definition get_windownd (window : window_spec) (size : pynum) (ndim : Z)
  : result (array3 float) :=
  w <- call_get_window window size ;;
  let w := outer_half w in
  outcoords <- outcoords_of size ndim ;;
  coords <- _ndrotational_mapping (Float64Array outcoords) size ;;
  dstack (to_float64 coords) outcoords.

End Builders.

(** ** Reading the results *)



(** A row [p = all_coords[i]] of the result of [get_windownd] is an
    [(ndim, 2)] block: [p[0, 0]] is the radius and [p[:, 1]] the lattice
    point it belongs to. *)
Definition pair_radius (p : list (list float)) : float :=
  nth 0 (nth 0 p []) nan.

Definition pair_coordinate (p : list (list float)) : list float :=
  map (fun c => nth 1 c nan) p.

Definition is_origin3 (x : list float) : bool :=
  match x with
  | [a; b; c] => ((a =? 0) && (b =? 0) && (c =? 0))%float
  | _ => false
  end.

(** The row the 2-D mapper writes for the input row [r]. *)
Definition mapped_pair (center : float) (r : list float) : list float :=
  match r with
  | [col; row] =>
      [0; sqrt ((col - center) * (col - center)
                + (row - center) * (row - center))]%float
  | _ => []
  end.

(** The row the N-D mapper computes its radius from. *)
Definition radius_of (center : float) (r : list float) : float :=
  sqrt (np_sum (np_square (np_sub_scalar r center))).

(** A size with a non-zero fractional part. *)
Definition fractional (size : pynum) : Prop :=
  exists f z, size = PyFloat f /\ float_trunc f = Some (z, true).

Definition pixels (n : Z) : list float := map Z2float (arange_int n).

(** The image [get_window2] hands to [warp]: the outer half of the profile
    as one column. *)
Definition profile_image (w : list float) : array2 float :=
  Array2 1 (map (fun x => [x]) (outer_half w)).

(** The value the output pixel in row [r], column [c] gets from a resampling
    kernel. *)
Definition window_value (interpolate : array2 float -> float -> float -> float)
    (image : array2 float) (center r c : float) : float :=
  interpolate image
    (sqrt ((c - center) * (c - center) + (r - center) * (r - center)))%float
    0%float.

(** [a[i, j]] *)
Definition entry {A : Type} (a : array2 A) (i j : nat) : option A :=
  match nth_error (rows a) i with
  | Some r => nth_error r j
  | None => None
  end.

(** An ndarray holds as many elements as its shape says. *)
Definition wf_nd {A : Type} (a : ndarray A) : Prop :=
  length (data a) = prod_list (shape a).

(** ** Exactly representable numbers *)

(** The float of [z * 2^e], rounded to nearest even. *)
Definition dyadic (z e : Z) : spec_float := binary_normalize prec emax z e false.

(** Integers that fit the 53 bits of a mantissa. *)
Definition small (z : Z) : Prop := (Z.abs z < 2 ^ 53)%Z.

(** ** The grids and the lattice of [get_windownd] *)

(** The data of grid [m] of the meshgrid of [n] copies of the range [a],
    whose shape is [sh]. *)
Definition grid_data {A : Type} (a : list A) (n : nat) (sh : list nat) (m : nat)
  : list A :=
  flat_map (fun idx => pick (nth (meshgrid_axis n m) idx 0%nat) a) (indices sh).

(** The same data read along axis [m] of the index tuples themselves. *)
Definition axis_values {A : Type} (a : list A) (sh : list nat) (m : nat)
  : list A :=
  flat_map (fun t => pick (nth m t 0%nat) a) (indices sh).

(** The run of grid [m] at the leading indices [(i, j)]; the elements
    belong to the tuples [(j, i, ...)]. *)
Definition grid_run {A : Type} (a : list A) (rest : list nat) (m i j : nat)
  : list A :=
  flat_map (fun idx => pick (nth m (j :: i :: idx) 0%nat) a) (indices rest).

(** Base-[s] digits of [q], most significant first. *)
Fixpoint digits (s n q : nat) : list nat :=
  match n with
  | O => []
  | S n' => (q / s ^ n')%nat :: digits s n' (q mod s ^ n')
  end.

(** The lattice points of the cube [[0, s)^n] in row-major order, as
    floats. *)
Definition lattice_points (s n : nat) : list (list float) :=
  map (map (fun i => Z2float (Z.of_nat i))) (indices (repeat s n)).

(** The pairs [(col, row)] of pixel positions of an [n]-by-[n] image. *)
Definition in_image (n : Z) (p : list Z) : Prop :=
  exists c r, p = [c; r] /\ (0 <= c < n)%Z /\ (0 <= r < n)%Z.

(** ** Sample collaborators *)

(** A window generator that knows two symmetric windows: the boxcar of any
    integer length and the four-point Hann window. *)
Definition sample_windows (window : window_spec) (size : pynum)
  : option (list float) :=
  match window, size with
  | WName name, PyInt n =>
      if String.eqb name "boxcar" then Some (repeat 1%float (Z.to_nat n))
      else if String.eqb name "hann" && (n =? 4)%Z
           then Some [0; 0.75; 0.75; 0]%float
           else None
  | _, _ => None
  end.

(** The same, but lenient about the type of [size]: it rounds a float
    length up. *)
Definition lenient_windows (window : window_spec) (size : pynum)
  : option (list float) :=
  match size with
  | PyInt _ => sample_windows window size
  | PyFloat f =>
      match float_ceil f with
      | Some n => sample_windows window (PyInt n)
      | None => None
      end
  end.

Definition pixel (image : array2 float) (i j : Z) : float :=
  nth (Z.to_nat j) (nth (Z.to_nat i) (rows image) []) 0%float.

(** Nearest-neighbour resampling; positions outside the image read 0. *)
Definition nearest_constant (image : array2 float) (r c : float) : float :=
  match float_trunc (r + 0.5), float_trunc (c + 0.5) with
  | Some (i, _), Some (j, _) =>
      if ((r + 0.5 <? 0) || (c + 0.5 <? 0))%float then 0%float
      else if ((i <? Z.of_nat (nrows image)) && (j <? Z.of_nat (ncols image)))%Z
           then pixel image i j
           else 0%float
  | _, _ => 0%float
  end.

(** Nearest-neighbour resampling; positions outside the image read the
    nearest edge pixel. *)
Definition nearest_edge (image : array2 float) (r c : float) : float :=
  match float_trunc (r + 0.5), float_trunc (c + 0.5) with
  | Some (i, _), Some (j, _) =>
      pixel image
        (Z.max 0 (Z.min i (Z.of_nat (nrows image) - 1)))
        (Z.max 0 (Z.min j (Z.of_nat (ncols image) - 1)))
  | _, _ => 0%float
  end.

(** * Properties *)

(** ** Rows of the mapped arrays *)

Lemma ncols_to_float64 (a : coord_array) :
  ncols (to_float64 a) = coord_ncols a.
Proof. destruct a; reflexivity. Qed.

Lemma nrows_to_float64 (a : coord_array) :
  nrows (to_float64 a) = coord_nrows a.
Proof.
  destruct a as [a|a]; unfold nrows; simpl; [apply length_map | reflexivity].
Qed.

Lemma rotational_rows (center : float) (rs : list (list float)) :
  Forall (fun r => length r = 2%nat) rs ->
  let rr := np_sqrt (np_add
              (np_square (np_sub_scalar (flat_map (pick 0) rs) center))
              (np_square (np_sub_scalar (flat_map (pick 1) rs) center))) in
  np_column_stack (np_zeros_like rr) rr = map (mapped_pair center) rs.
Proof.
  induction 1 as [|r rs Hr _ IH]; [reflexivity|].
  destruct r as [|col [|row [|? ?]]]; try discriminate.
  simpl in *. now rewrite IH.
Qed.

Lemma replace_heads_zero {A B : Type} (z : A) (f : list B -> A) (n : nat)
    (rs : list (list B)) :
  Forall (fun r => length r = S n) rs ->
  replace_heads (map (map (fun _ => z)) rs) (map f rs)
  = map (fun r => f r :: repeat z n) rs.
Proof.
  induction 1 as [|r rs Hr _ IH]; [reflexivity|].
  simpl. rewrite IH. f_equal. f_equal.
  destruct r as [|x r]; [discriminate|]. simpl in *.
  injection Hr as <-. clear. induction r; simpl; congruence.
Qed.

Lemma Forall_length_map {A B : Type} (f : A -> B) (n : nat)
    (rs : list (list A)) :
  Forall (fun r => length r = n) rs ->
  Forall (fun r => length r = n) (map (map f) rs).
Proof.
  induction 1; simpl; constructor; auto. now rewrite length_map.
Qed.

(** ** The 2-D mapper (C2) *)

(** C2. For an [(M, 2)] array of [(col, row)] coordinates and a window size
    that is an exact integer [n], [_rotational_mapping] returns an [(M, 2)]
    array whose [i]-th row is [(0, radius_i)], with
    [radius_i = sqrt((col_i - center)^2 + (row_i - center)^2)] and
    [center = n/2 - 0.5]; and for window size 4 the point [(1.5, 1.5)] is
    mapped to radius 0. *)
Theorem rotational_mapping_radius :
  (forall (output_coords : coord_array) (window_size : pynum) (n : Z),
      safe_as_int window_size = Ok n ->
      coord_ncols output_coords = 2%nat ->
      wf2 (to_float64 output_coords) ->
      exists coords,
        _rotational_mapping output_coords window_size = Ok coords
        /\ ncols coords = 2%nat
        /\ nrows coords = coord_nrows output_coords
        /\ forall (i : nat) (col row : float),
            nth_error (rows (to_float64 output_coords)) i = Some [col; row] ->
            let center := (Z2float n / 2 - 0.5)%float in
            nth_error (rows coords) i
            = Some [0; sqrt ((col - center) * (col - center)
                             + (row - center) * (row - center))]%float)
  /\ _rotational_mapping (Float64Array (Array2 2 [[1.5; 1.5]%float])) (PyInt 4)
     = Ok (Array2 2 [[0; 0]%float]).
Proof.
  split; [|vm_compute; reflexivity].
  intros oc ws n Hn Hc Hwf.
  unfold _rotational_mapping. rewrite Hn. cbn [bind].
  unfold column. rewrite ncols_to_float64, Hc. cbn [Nat.ltb Nat.leb bind].
  unfold wf2 in Hwf. rewrite ncols_to_float64, Hc in Hwf.
  eexists. split; [reflexivity|].
  rewrite (rotational_rows (center_of n) _ Hwf).
  split; [reflexivity|]. split.
  - unfold nrows at 1. cbn [rows]. rewrite length_map.
    now rewrite <- nrows_to_float64.
  - intros i col row Hi. cbn [rows].
    rewrite nth_error_map, Hi. reflexivity.
Qed.

(** ** The N-D mapper (C3, C10) *)

(** *** Rows added element after element *)

Lemma ndrotational_float (a : array2 float) (window_size : pynum) (n : Z) :
  safe_as_int window_size = Ok n ->
  wf2 a ->
  (0 < ncols a)%nat ->
  _ndrotational_mapping (Float64Array a) window_size
  = Ok (Float64Array
          (Array2 (ncols a)
             (map (fun r => radius_of (center_of n) r
                            :: repeat 0%float (ncols a - 1))
                  (rows a)))).
Proof.
  intros Hn Hwf Hpos.
  unfold _ndrotational_mapping. rewrite Hn. cbn [bind].
  unfold assign_column0. cbn [zeros_like coord_ncols map2d ncols rows to_float64].
  apply Nat.ltb_lt in Hpos as Hlt. rewrite Hlt.
  unfold np_sqrt. rewrite map_map.
  destruct (ncols a) as [|k] eqn:Hk; [inversion Hpos|].
  unfold wf2 in Hwf. rewrite Hk in Hwf.
  rewrite (replace_heads_zero 0%float
             (fun r => sqrt (np_sum (np_square (np_sub_scalar r (center_of n)))))
             k _ Hwf).
  cbn [Nat.sub]. rewrite Nat.sub_0_r. reflexivity.
Qed.

Lemma ndrotational_int (a : array2 Z) (window_size : pynum) (n : Z) :
  safe_as_int window_size = Ok n ->
  wf2 a ->
  (0 < ncols a)%nat ->
  _ndrotational_mapping (Int64Array a) window_size
  = Ok (Int64Array
          (Array2 (ncols a)
             (map (fun r => float_to_int64
                              (radius_of (center_of n) (map Z2float r))
                            :: repeat 0%Z (ncols a - 1))
                  (rows a)))).
Proof.
  intros Hn Hwf Hpos.
  unfold _ndrotational_mapping. rewrite Hn. cbn [bind].
  unfold assign_column0. cbn [zeros_like coord_ncols map2d ncols rows to_float64].
  apply Nat.ltb_lt in Hpos as Hlt. rewrite Hlt.
  unfold np_sqrt. rewrite !map_map.
  destruct (ncols a) as [|k] eqn:Hk; [inversion Hpos|].
  unfold wf2 in Hwf. rewrite Hk in Hwf.
  rewrite (replace_heads_zero 0%Z
             (fun r => float_to_int64
                         (sqrt (np_sum (np_square
                            (np_sub_scalar (map Z2float r) (center_of n))))))
             k _ Hwf).
  cbn [Nat.sub]. rewrite Nat.sub_0_r. reflexivity.
Qed.

(** *** Sums in numpy's order *)

Lemma add_neg_zero (x : float) : (neg_zero + x)%float = x.
Proof.
  apply Prim2SF_inj. rewrite add_spec.
  change (Prim2SF neg_zero) with (S754_zero true).
  unfold SF64add, SFadd.
  destruct (Prim2SF x) as [[|]|[|]| |s m e]; reflexivity.
Qed.

(** The fuel of [pairwise_sum] does not matter from the length of the run
    on. *)
Lemma pairwise_sum_fuel (fuel fuel' : nat) (xs : list float) :
  (length xs <= fuel)%nat -> (length xs <= fuel')%nat ->
  pairwise_sum fuel xs = pairwise_sum fuel' xs.
Proof.
  revert fuel' xs. induction fuel as [|fuel IH]; intros fuel' xs H H'.
  - destruct xs; [|simpl in H; lia]. destruct fuel'; reflexivity.
  - destruct fuel' as [|fuel'].
    + destruct xs; [reflexivity | simpl in H'; lia].
    + cbn [pairwise_sum].
      destruct (length xs <? 8)%nat eqn:H8; [reflexivity|].
      destruct (length xs <=? 128)%nat eqn:H128; [reflexivity|].
      apply Nat.leb_gt in H128.
      assert (Hd : (64 <= length xs / 2)%nat)
        by (apply Nat.div_le_lower_bound; lia).
      assert (Hu : (length xs / 2 < length xs)%nat)
        by (apply Nat.div_lt; lia).
      assert (Hm : ((length xs / 2) mod 8 < 8)%nat)
        by (apply Nat.mod_upper_bound; lia).
      f_equal; apply IH; rewrite ?length_firstn, ?length_skipn; lia.
Qed.

Lemma pairwise_sum_short (fuel : nat) (xs : list float) :
  (length xs < 8)%nat ->
  pairwise_sum fuel xs = fold_left (fun acc y => (acc + y)%float) xs neg_zero.
Proof.
  intros H. apply Nat.ltb_lt in H.
  destruct fuel; unfold pairwise_sum; rewrite H; reflexivity.
Qed.

(** Below eight elements both orders add element after element. *)
Lemma row_sum_short (by_rows : bool) (xs : list float) :
  (length xs < 8)%nat -> row_sum by_rows xs = np_sum xs.
Proof.
  intros H. destruct xs as [|x xs]; [reflexivity|].
  destruct by_rows; [|reflexivity].
  unfold row_sum. rewrite (pairwise_sum_short _ _ H).
  cbn [fold_left np_sum]. now rewrite add_neg_zero.
Qed.

Lemma row_sum_by_columns (xs : list float) : row_sum false xs = np_sum xs.
Proof. destruct xs; reflexivity. Qed.

(** [_ndrotational_mapping] is the mapper on every array of fewer than eight
    columns and on every column-major array of two rows or more. *)
Lemma ndrotational_ordered_agree (order : memory_order) (output_coords : coord_array)
    (window_size : pynum) :
  wf2 (to_float64 output_coords) ->
  (coord_ncols output_coords < 8)%nat
  \/ (order = F_order /\ 2 <= coord_nrows output_coords)%nat ->
  _ndrotational_mapping_ordered order output_coords window_size
  = _ndrotational_mapping output_coords window_size.
Proof.
  intros Hwf H.
  unfold _ndrotational_mapping_ordered, _ndrotational_mapping.
  destruct (safe_as_int window_size) as [n|e]; [|reflexivity]. cbn [bind].
  f_equal. f_equal.
  unfold wf2 in Hwf. rewrite ncols_to_float64 in Hwf.
  apply map_ext_in. intros r Hr.
  destruct H as [H|[-> H]].
  - apply row_sum_short. unfold np_square, np_sub_scalar.
    rewrite !length_map.
    rewrite Forall_forall in Hwf. now rewrite (Hwf r Hr).
  - unfold reduces_by_rows.
    replace (coord_nrows output_coords <=? 1)%nat with false
      by (symmetry; apply Nat.leb_gt; lia).
    apply row_sum_by_columns.
Qed.

Lemma ndrotational_ordered_float (order : memory_order) (a : array2 float)
    (window_size : pynum) (n : Z) :
  safe_as_int window_size = Ok n ->
  wf2 a ->
  (0 < ncols a)%nat ->
  _ndrotational_mapping_ordered order (Float64Array a) window_size
  = Ok (Float64Array
          (Array2 (ncols a)
             (map (fun r => sqrt (row_sum (reduces_by_rows order (nrows a))
                                    (np_square (np_sub_scalar r (center_of n))))
                            :: repeat 0%float (ncols a - 1))
                  (rows a)))).
Proof.
  intros Hn Hwf Hpos.
  unfold _ndrotational_mapping_ordered. rewrite Hn. cbn [bind].
  unfold assign_column0.
  cbn [zeros_like coord_ncols coord_nrows map2d ncols rows to_float64].
  apply Nat.ltb_lt in Hpos as Hlt. rewrite Hlt.
  unfold np_sqrt. rewrite map_map.
  destruct (ncols a) as [|k] eqn:Hk; [inversion Hpos|].
  unfold wf2 in Hwf. rewrite Hk in Hwf.
  rewrite (replace_heads_zero 0%float
             (fun r => sqrt (row_sum (reduces_by_rows order (nrows a))
                               (np_square (np_sub_scalar r (center_of n)))))
             k _ Hwf).
  cbn [Nat.sub]. rewrite Nat.sub_0_r. reflexivity.
Qed.


(** From eight columns on the order shows: the row
    [(1e8, 1, 1, 1, 1, 1, 1, 1)], window size 1, is at distance
    [100000000.00000003] in a row-major array and at [100000000] in a
    column-major array of two rows. *)
Lemma row_sum_order :
  _ndrotational_mapping_ordered C_order
    (Float64Array (Array2 8 [[100000000; 1; 1; 1; 1; 1; 1; 1]%float])) (PyInt 1)
  = Ok (Float64Array
          (Array2 8 [[0x1.7d78400000002p+26; 0; 0; 0; 0; 0; 0; 0]%float]))
  /\ _ndrotational_mapping_ordered F_order
       (Float64Array (Array2 8 [[100000000; 1; 1; 1; 1; 1; 1; 1];
                                [0; 0; 0; 0; 0; 0; 0; 0]]%float)) (PyInt 1)
     = Ok (Float64Array
             (Array2 8 [[100000000; 0; 0; 0; 0; 0; 0; 0];
                        [0; 0; 0; 0; 0; 0; 0; 0]]%float)).
Proof. split; vm_compute; reflexivity. Qed.

(** *** C3 *)

(** C3, as stated, fails on an int64 array: for the point [(0, 0, 0)] and
    window size 4 the squared distance to [(1.5, 1.5, 1.5)] is 6.75, and
    component 0 of the result is 2, whose square is 4. *)
Lemma ndrotational_int64_not_distance :
  _ndrotational_mapping_ordered C_order
    (Int64Array (Array2 3 [[0; 0; 0]%Z])) (PyInt 4)
  = Ok (Int64Array (Array2 3 [[2; 0; 0]%Z]))
  /\ np_sum (np_square (np_sub_scalar [0; 0; 0]%float (center_of 4)))
     = 6.75%float
  /\ (Z2float 2 * Z2float 2 <? 6.75)%float = true.
Proof. repeat split; vm_compute; reflexivity. Qed.

(** C3, amended. For a float64 [(M, N)] array with [N >= 1], of either
    memory order, and a window size that is an exact integer [n],
    [_ndrotational_mapping] returns a float64 [(M, N)] array in which
    component 0 of every row is the float64 Euclidean distance of the input
    row to the point whose every axis position is [n/2 - 0.5] (the square
    root of the sum of the squared differences, added in numpy's order), and
    the components 1 to [N-1] are 0. *)
Theorem ndrotational_mapping_distance
    (order : memory_order) (output_coords : array2 float)
    (window_size : pynum) (n : Z) :
  safe_as_int window_size = Ok n ->
  wf2 output_coords ->
  (0 < ncols output_coords)%nat ->
  exists coords,
    _ndrotational_mapping_ordered order (Float64Array output_coords) window_size
    = Ok (Float64Array coords)
    /\ ncols coords = ncols output_coords
    /\ nrows coords = nrows output_coords
    /\ forall (i : nat) (x : list float),
        nth_error (rows output_coords) i = Some x ->
        let center := (Z2float n / 2 - 0.5)%float in
        let squares := map (fun xj => ((xj - center) * (xj - center))%float) x in
        let by_rows := reduces_by_rows order (nrows output_coords) in
        nth_error (rows coords) i
        = Some (sqrt (row_sum by_rows squares)
                :: repeat 0%float (ncols output_coords - 1)).
Proof.
  intros Hn Hwf Hpos.
  rewrite (ndrotational_ordered_float order _ _ _ Hn Hwf Hpos).
  eexists. split; [reflexivity|]. split; [reflexivity|]. split.
  - unfold nrows. cbn [rows]. apply length_map.
  - intros i x Hi. cbn [rows]. rewrite nth_error_map, Hi. cbn [option_map].
    unfold np_square, np_sub_scalar, center_of.
    now rewrite map_map.
Qed.

(** *** C10 *)



(** ** The N-D builder (C4, C8, C9) *)

Section NdBuilder.

Variable get_window : window_spec -> pynum -> option (list float).

Lemma get_windownd_accepted (window : window_spec) (size : pynum) (ndim : Z)
    (w : list float) :
  get_window window size = Some w ->
  get_windownd get_window window size ndim
  = (outcoords <- outcoords_of size ndim ;;
     coords <- _ndrotational_mapping (Float64Array outcoords) size ;;
     dstack (to_float64 coords) outcoords).
Proof.
  intros Hw. unfold get_windownd, call_get_window. now rewrite Hw.
Qed.

(** C4. With the window "hann" (accepted by the window generator), size 4
    and [ndim = 3], [get_windownd] returns 64 coordinate/radius pairs; the
    lattice point [(0, 0, 0)] is among them, and the radius paired with it
    is greater than or equal to the radius of every pair. *)
Theorem get_windownd_hann_4_3 (w : list float) :
  get_window (WName "hann") (PyInt 4) = Some w ->
  exists all_coords,
    get_windownd get_window (WName "hann") (PyInt 4) 3 = Ok all_coords
    /\ length (cells all_coords) = 64%nat
    /\ dim1 all_coords = 3%nat
    /\ dim2 all_coords = 2%nat
    /\ (exists p0, In p0 (cells all_coords)
                   /\ pair_coordinate p0 = [0; 0; 0]%float)
    /\ forall p0 p,
        In p0 (cells all_coords) ->
        pair_coordinate p0 = [0; 0; 0]%float ->
        In p (cells all_coords) ->
        (pair_radius p <=? pair_radius p0)%float = true.
Proof.
  intros Hw. rewrite (get_windownd_accepted _ _ _ _ Hw).
  set (r := bind (outcoords_of (PyInt 4) 3) _).
  vm_compute in r. subst r.
  eexists. split; [reflexivity|].
  cbn [cells dim1 dim2].
  split; [reflexivity|]. split; [reflexivity|]. split; [reflexivity|].
  split.
  - eexists. split; [left; reflexivity|]. vm_compute. reflexivity.
  - match goal with |- forall p0 p, In p0 ?l -> _ => set (cs := l) end.
    assert (Hall :
      forallb (fun p0 =>
                 implb (is_origin3 (pair_coordinate p0))
                       (forallb (fun p => (pair_radius p <=? pair_radius p0)%float)
                                cs)) cs = true)
      by (vm_compute; reflexivity).
    intros p0 p Hp0 Ho Hp.
    rewrite forallb_forall in Hall. specialize (Hall p0 Hp0).
    rewrite Ho in Hall. cbn [is_origin3] in Hall.
    change ((0 =? 0)%float) with true in Hall. cbn [andb implb] in Hall.
    rewrite forallb_forall in Hall. exact (Hall p Hp).
Qed.

(** C8. With [ndim < 1] the N-D builder never returns: whenever the window
    generator accepts the window, the exception is the one numpy raises
    for an empty list of grids, a DimensionMismatchError. *)
Theorem get_windownd_ndim_below_1
    (window : window_spec) (size : pynum) (ndim : Z) :
  (ndim < 1)%Z ->
  returns (get_windownd get_window window size ndim) = false
  /\ forall w, get_window window size = Some w ->
       get_windownd get_window window size ndim = Raise ConcatenateError
       /\ kind_of ConcatenateError = Some DimensionMismatchError.
Proof.
  intros Hlt.
  assert (Hout : outcoords_of size ndim = Raise ConcatenateError).
  { unfold outcoords_of. replace (Z.to_nat ndim) with 0%nat by lia.
    reflexivity. }
  split.
  - unfold get_windownd. destruct (call_get_window get_window window size);
      cbn [bind]; [|reflexivity].
    now rewrite Hout.
  - intros w Hw. rewrite (get_windownd_accepted _ _ _ _ Hw), Hout.
    split; reflexivity.
Qed.

(** C9. For any size and [ndim], two windows that the generator accepts
    give the same result: [get_windownd] does not use the profile. *)
Theorem get_windownd_ignores_window
    (window1 window2 : window_spec) (size : pynum) (ndim : Z) :
  get_window window1 size <> None ->
  get_window window2 size <> None ->
  get_windownd get_window window1 size ndim
  = get_windownd get_window window2 size ndim.
Proof.
  intros H1 H2.
  destruct (get_window window1 size) as [w1|] eqn:E1; [|congruence].
  destruct (get_window window2 size) as [w2|] eqn:E2; [|congruence].
  now rewrite (get_windownd_accepted _ _ _ _ E1), (get_windownd_accepted _ _ _ _ E2).
Qed.

End NdBuilder.

(** ** Pixel ranges and integer sizes *)

Lemma length_pixels (n : Z) : length (pixels n) = Z.to_nat n.
Proof. unfold pixels, arange_int. now rewrite !length_map, length_seq. Qed.

Lemma pixel_range_integer (size : pynum) (n : Z) :
  safe_as_int size = Ok n -> pixel_range size = Ok (pixels n).
Proof.
  destruct size as [z|f]; simpl.
  - now intros [= ->].
  - unfold arange_float, float_ceil.
    destruct (float_trunc f) as [[z [|]]|]; try discriminate.
    intros [= ->]. cbn [andb]. unfold pixels, arange_int. now rewrite map_map.
Qed.

Lemma fractional_rejected (size : pynum) :
  fractional size -> safe_as_int size = Raise SafeAsIntError.
Proof. intros (f & z & -> & Hf). simpl. now rewrite Hf. Qed.

Lemma fractional_has_range (size : pynum) :
  fractional size -> exists l, pixel_range size = Ok l.
Proof.
  intros (f & z & -> & Hf). simpl. unfold arange_float, float_ceil.
  rewrite Hf. eauto.
Qed.

Lemma fractional_arange (f : float) :
  fractional (PyFloat f) -> exists a, arange_float f = Ok a.
Proof. intros H. apply (fractional_has_range _ H). Qed.

(** ** Blocks of a flat list *)

Lemma block_0_app {A : Type} (l rest : list A) :
  block (length l) 0 (l ++ rest) = l.
Proof.
  unfold block. simpl. rewrite firstn_app, Nat.sub_diag, firstn_all.
  simpl. apply app_nil_r.
Qed.

Lemma block_S_app {A : Type} (i : nat) (l rest : list A) :
  block (length l) (S i) (l ++ rest) = block (length l) i rest.
Proof.
  unfold block. simpl. rewrite skipn_app.
  rewrite (skipn_all2 l) by lia. simpl.
  now replace (length l + i * length l - length l)%nat with (i * length l)%nat
    by lia.
Qed.

Lemma split_blocks_concat {A : Type} (n : nat) (ls : list (list A)) :
  Forall (fun l => length l = n) ls ->
  split_blocks (length ls) n (concat ls) = ls.
Proof.
  induction 1 as [|l ls Hl _ IH]; [reflexivity|].
  unfold split_blocks in *. simpl. subst n.
  rewrite block_0_app. f_equal.
  rewrite <- seq_shift, map_map.
  rewrite <- IH at 2. apply map_ext. intros i. apply block_S_app.
Qed.

Lemma map_seq_nth {A B : Type} (F : A -> B) (d : A) (l : list A) :
  map (fun j => F (nth j l d)) (seq 0 (length l)) = map F l.
Proof.
  induction l as [|x l IH]; [reflexivity|].
  simpl. f_equal. rewrite <- seq_shift, map_map. exact IH.
Qed.

(** ** The 2-D builder (C6, C7) *)

Section Builder2d.

Variable get_window : window_spec -> pynum -> option (list float).
Variable interpolate : array2 float -> float -> float -> float.

Lemma warp_grid (image : array2 float) (size : pynum) (rs cs : list float)
    (n : Z) :
  safe_as_int size = Ok n ->
  (source_coords <-
     _rotational_mapping
       (Float64Array
          (Array2 2 (flat_map (fun r => map (fun c => [c; r]) cs) rs)))
       size ;;
   let values := flat_map (sample interpolate image) (rows source_coords) in
   if (length values =? length rs * length cs)%nat
   then Ok (Array2 (length cs) (split_blocks (length rs) (length cs) values))
   else Raise ReshapeError)
  = Ok (Array2 (length cs)
          (map (fun r => map (window_value interpolate image (center_of n) r) cs)
               rs)).
Proof.
  intros Hn.
  unfold _rotational_mapping. rewrite Hn. cbn [bind].
  cbn [to_float64 column ncols rows Nat.ltb Nat.leb bind].
  assert (Hwf : Forall (fun r => length r = 2%nat)
                  (flat_map (fun r => map (fun c => [c; r]) cs) rs)).
  { apply Forall_forall. intros p Hp. apply in_flat_map in Hp.
    destruct Hp as (r & _ & Hp). apply in_map_iff in Hp.
    destruct Hp as (c & <- & _). reflexivity. }
  rewrite (rotational_rows (center_of n) _ Hwf). cbn [rows].
  rewrite flat_map_concat_map, map_map.
  assert (Hval :
    concat (map (fun p => sample interpolate image (mapped_pair (center_of n) p))
                (flat_map (fun r => map (fun c => [c; r]) cs) rs))
    = concat (map (fun r => map (window_value interpolate image (center_of n) r) cs)
                  rs)).
  { clear. induction rs as [|r rs IH]; [reflexivity|].
    simpl. rewrite map_app, concat_app, IH. f_equal.
    clear. induction cs as [|c cs IH]; [reflexivity|].
    simpl. now rewrite IH. }
  rewrite Hval.
  assert (Hlen : Forall (fun l => length l = length cs)
            (map (fun r => map (window_value interpolate image (center_of n) r) cs)
                 rs)).
  { apply Forall_forall. intros l Hl. apply in_map_iff in Hl.
    destruct Hl as (r & <- & _). apply length_map. }
  assert (Htot :
    length (concat (map (fun r => map (window_value interpolate image
                                         (center_of n) r) cs) rs))
    = (length rs * length cs)%nat).
  { clear. induction rs as [|r rs IH]; [reflexivity|].
    simpl. now rewrite length_app, IH, length_map. }
  cbv zeta. rewrite Htot, Nat.eqb_refl.
  rewrite <- (length_map
                (fun r => map (window_value interpolate image (center_of n) r) cs)
                rs) at 1.
  now rewrite (split_blocks_concat _ _ Hlen).
Qed.

Lemma warp_rotational (image : array2 float) (size : pynum) (cs : list float)
    (n : Z) :
  pixel_range size = Ok cs ->
  safe_as_int size = Ok n ->
  warp interpolate image _rotational_mapping size (size, size)
  = Ok (Array2 (length cs)
          (map (fun r => map (window_value interpolate image (center_of n) r) cs)
               cs)).
Proof.
  intros Hcs Hn. unfold warp. cbn [fst snd]. rewrite Hcs. cbn [bind].
  apply (warp_grid image size cs cs n Hn).
Qed.

Lemma get_window2_accepted (window : window_spec) (size : pynum) (n : Z)
    (w : list float) :
  safe_as_int size = Ok n ->
  get_window window size = Some w ->
  get_window2 get_window interpolate window size
  = Ok (Array2 (Z.to_nat n)
          (map (fun r => map (window_value interpolate (profile_image w) (center_of n) r)
                             (pixels n))
               (pixels n))).
Proof.
  intros Hn Hw. unfold get_window2, call_get_window. rewrite Hw. cbn [bind].
  pose proof (pixel_range_integer _ _ Hn) as Hp.
  rewrite (warp_rotational _ _ _ _ Hp Hn). now rewrite length_pixels.
Qed.

(** C6. For an integer size [n >= 0] and a window the generator accepts,
    [get_window2] returns an array of shape [(n, n)]. *)
Theorem get_window2_shape (window : window_spec) (size : pynum) (n : Z)
    (w : list float) :
  safe_as_int size = Ok n ->
  (0 <= n)%Z ->
  get_window window size = Some w ->
  exists window2d,
    get_window2 get_window interpolate window size = Ok window2d
    /\ Z.of_nat (nrows window2d) = n
    /\ Z.of_nat (ncols window2d) = n
    /\ wf2 window2d.
Proof.
  intros Hn Hpos Hw. rewrite (get_window2_accepted _ _ _ _ Hn Hw).
  eexists. split; [reflexivity|].
  unfold nrows, wf2. cbn [rows ncols]. rewrite length_map, length_pixels.
  split; [lia|]. split; [lia|].
  apply Forall_forall. intros l Hl. apply in_map_iff in Hl.
  destruct Hl as (r & <- & _). now rewrite length_map, length_pixels.
Qed.

End Builder2d.

(** ** The lattice of grid points *)

Lemma length_indices (sh : list nat) : length (indices sh) = prod_list sh.
Proof.
  induction sh as [|d sh IH]; [reflexivity|].
  simpl. rewrite (flat_map_constant_length (c := prod_list sh)).
  - now rewrite length_seq.
  - intros i _. now rewrite length_map.
Qed.

Lemma indices_bound (sh idx : list nat) (k : nat) :
  In idx (indices sh) -> (k < length sh)%nat ->
  (nth k idx 0 < nth k sh 0)%nat.
Proof.
  revert idx k. induction sh as [|d sh IH]; intros idx k Hin Hk.
  - inversion Hk.
  - simpl in Hin. apply in_flat_map in Hin. destruct Hin as (i & Hi & Hin).
    apply in_map_iff in Hin. destruct Hin as (idx' & <- & Hin).
    apply in_seq in Hi. destruct k as [|k]; simpl; [lia|].
    apply IH; [assumption | simpl in Hk; lia].
Qed.

Lemma length_pick {A : Type} (j : nat) (x : list A) :
  (j < length x)%nat -> length (pick j x) = 1%nat.
Proof.
  intros Hj. unfold pick.
  destruct (nth_error x j) eqn:E; [reflexivity|].
  apply nth_error_None in E. lia.
Qed.

Lemma length_grid_data {A : Type} (x : list A) (sh : list nat) (axis : nat) :
  (axis < length sh)%nat ->
  (nth axis sh 0 <= length x)%nat ->
  length (flat_map (fun idx => pick (nth axis idx 0%nat) x) (indices sh))
  = prod_list sh.
Proof.
  intros Hax Hle.
  rewrite (flat_map_constant_length (c := 1)).
  - rewrite length_indices. lia.
  - intros idx Hin. apply length_pick.
    pose proof (indices_bound _ _ _ Hin Hax). lia.
Qed.

Lemma meshgrid_shape_repeat (l n : nat) :
  meshgrid_shape (repeat l n) = repeat l n.
Proof. destruct n as [|[|n]]; reflexivity. Qed.

Lemma meshgrid_axis_lt (n m : nat) : (m < n)%nat -> (meshgrid_axis n m < n)%nat.
Proof.
  unfold meshgrid_axis. intros Hm.
  destruct (n <=? 1)%nat eqn:E; [assumption|].
  apply Nat.leb_gt in E. destruct m as [|[|m]]; lia.
Qed.

Lemma meshgrid_repeat {A : Type} (a : list A) (n : nat) :
  length (meshgrid (repeat a n)) = n
  /\ Forall (fun g => shape g = repeat (length a) n /\ wf_nd g)
            (meshgrid (repeat a n)).
Proof.
  unfold meshgrid. split.
  - now rewrite length_map, length_combine, length_seq, repeat_length, Nat.min_id.
  - apply Forall_forall. intros g Hg. apply in_map_iff in Hg.
    destruct Hg as ((m & x) & <- & Hin).
    apply in_combine_l in Hin as Hm. apply in_combine_r in Hin as Hx.
    apply repeat_spec in Hx. subst x.
    rewrite repeat_length in Hm. apply in_seq in Hm.
    rewrite map_repeat, meshgrid_shape_repeat, repeat_length.
    split; [reflexivity|]. unfold wf_nd. cbn [data shape].
    assert (Hax : (meshgrid_axis n m < n)%nat) by (apply meshgrid_axis_lt; lia).
    apply length_grid_data.
    + now rewrite repeat_length.
    + now rewrite (nth_repeat_lt _ _ Hax).
Qed.

Lemma length_block {A : Type} (n i : nat) (l : list A) :
  (i * n + n <= length l)%nat -> length (block n i l) = n.
Proof.
  intros H. unfold block. rewrite length_firstn, length_skipn. lia.
Qed.

Lemma forallb_eqb_refl (s : list nat) :
  forallb (fun p : nat * nat => Nat.eqb (fst p) (snd p)) (combine s s) = true.
Proof.
  induction s as [|x s IH]; [reflexivity|].
  simpl. now rewrite Nat.eqb_refl, IH.
Qed.

Lemma same_but_axis_refl (axis : nat) (s : list nat) :
  same_but_axis axis s s = true.
Proof.
  unfold same_but_axis. now rewrite Nat.eqb_refl, !forallb_eqb_refl.
Qed.

Lemma prod_list_app (s t : list nat) :
  prod_list (s ++ t) = (prod_list s * prod_list t)%nat.
Proof.
  induction s as [|x s IH]; simpl; [lia|]. rewrite IH. lia.
Qed.

Lemma prod_list_split (axis : nat) (sh : list nat) :
  prod_list sh
  = (prod_list (firstn axis sh) * prod_list (skipn axis sh))%nat.
Proof. now rewrite <- prod_list_app, firstn_skipn. Qed.

Lemma prod_list_skipn (axis : nat) (sh : list nat) :
  (axis < length sh)%nat ->
  prod_list (skipn axis sh)
  = (nth axis sh 0 * prod_list (skipn (S axis) sh))%nat.
Proof.
  revert axis. induction sh as [|d sh IH]; intros axis H.
  - inversion H.
  - destruct axis as [|axis]; [reflexivity|].
    simpl in H. apply (IH axis). lia.
Qed.

Lemma list_sum_constant {A : Type} (f : A -> nat) (c : nat) (l : list A) :
  Forall (fun a => f a = c) l -> list_sum (map f l) = (length l * c)%nat.
Proof. induction 1 as [|a l Ha _ IH]; simpl; [reflexivity|]. lia. Qed.

(** Joining arrays of one shape along an axis. *)
Lemma concatenate_uniform {A : Type} (tup : list (ndarray A)) (sh : list nat)
    (axis : nat) :
  tup <> [] ->
  (axis < length sh)%nat ->
  Forall (fun g => shape g = sh /\ wf_nd g) tup ->
  exists r,
    concatenate tup axis = Ok r
    /\ shape r = firstn axis sh ++ [length tup * nth axis sh 0]%nat
                 ++ skipn (S axis) sh
    /\ wf_nd r.
Proof.
  intros Hne Hax Hall.
  destruct tup as [|a0 tup']; [congruence|].
  assert (H0 : shape a0 = sh) by (inversion Hall; tauto).
  unfold concatenate. rewrite H0.
  set (tup := a0 :: tup') in *.
  apply Nat.ltb_lt in Hax as Hax'. rewrite Hax'.
  assert (Hsame : forallb (fun a => same_but_axis axis sh (shape a)) tup = true).
  { apply forallb_forall. intros g Hg.
    rewrite Forall_forall in Hall. destruct (Hall g Hg) as [-> _].
    apply same_but_axis_refl. }
  rewrite Hsame. eexists. split; [reflexivity|]. cbn [shape data].
  assert (Hsum : list_sum (map (fun a => nth axis (shape a) 0%nat) tup)
                 = (length tup * nth axis sh 0)%nat).
  { apply list_sum_constant. revert Hall. apply Forall_impl.
    now intros g [-> _]. }
  rewrite Hsum. split; [reflexivity|].
  unfold wf_nd. cbn [shape data].
  rewrite (flat_map_constant_length
             (c := (length tup * prod_list (skipn axis sh))%nat)).
  - rewrite length_seq, !prod_list_app, (prod_list_skipn _ _ Hax).
    change (prod_list [(length tup * nth axis sh 0)%nat])
      with (length tup * nth axis sh 0 * 1)%nat.
    ring.
  - intros i Hi. apply in_seq in Hi.
    apply flat_map_constant_length. intros g Hg.
    rewrite Forall_forall in Hall. destruct (Hall g Hg) as [Hs Hw].
    rewrite Hs. apply length_block. rewrite Hw, Hs.
    rewrite (prod_list_split axis sh). nia.
Qed.

Lemma swapaxes01_wf {A : Type} (a : ndarray A) (d0 d1 : nat) (rest : list nat) :
  shape a = d0 :: d1 :: rest ->
  wf_nd a ->
  exists r,
    swapaxes01 a = Ok r /\ shape r = d1 :: d0 :: rest /\ wf_nd r.
Proof.
  intros Hs Hw. unfold swapaxes01. rewrite Hs.
  eexists. split; [reflexivity|]. split; [reflexivity|].
  unfold wf_nd in *. cbn [shape data]. rewrite Hs in Hw. simpl in Hw.
  rewrite (flat_map_constant_length (c := (d0 * prod_list rest)%nat)).
  - rewrite length_seq. simpl. lia.
  - intros p Hp. apply in_seq in Hp.
    rewrite (flat_map_constant_length (c := prod_list rest)).
    + now rewrite length_seq.
    + intros i Hi. apply in_seq in Hi. apply length_block. rewrite Hw.
      assert (Hb : (i * d1 + p + 1 <= d0 * d1)%nat) by nia.
      apply (Nat.mul_le_mono_r _ _ (prod_list rest)) in Hb. lia.
Qed.

(** With two axes or more, the lattice of [n] copies of a range of [l]
    elements has [l ^ n] rows and [n] columns. *)
Lemma lattice_repeat {A : Type} (a : list A) (n : nat) :
  (2 <= n)%nat ->
  exists out,
    lattice (repeat a n) n = Ok out
    /\ nrows out = (length a ^ n)%nat
    /\ ncols out = n.
Proof.
  intros Hn. unfold lattice.
  destruct (meshgrid_repeat a n) as [Hlen Hall].
  assert (Hne : meshgrid (repeat a n) <> []).
  { intros E. rewrite E in Hlen. simpl in Hlen. lia. }
  assert (Hh : hstack (meshgrid (repeat a n)) = concatenate (meshgrid (repeat a n)) 1).
  { unfold hstack. destruct (meshgrid (repeat a n)) as [|g gs] eqn:E; [reflexivity|].
    inversion Hall as [|? ? [Hs _] _]. rewrite Hs, repeat_length.
    destruct (n =? 1)%nat eqn:E1; [apply Nat.eqb_eq in E1; lia | reflexivity]. }
  rewrite Hh.
  destruct (concatenate_uniform (meshgrid (repeat a n)) (repeat (length a) n) 1 Hne)
    as (st & -> & Hst & Hwst); [rewrite repeat_length; lia | exact Hall |].
  cbn [bind].
  destruct n as [|[|k]]; try lia.
  rewrite Hlen in Hst. simpl in Hst.
  destruct (swapaxes01_wf st _ _ _ Hst Hwst) as (sw & -> & Hsw & Hwsw).
  cbn [bind]. unfold reshape_rows.
  unfold wf_nd in Hwsw. rewrite Hsw in Hwsw. simpl in Hwsw.
  set (l := length a) in *. set (q := prod_list (repeat l k)) in *.
  assert (Htot : length (data sw) = ((l * l * q) * S (S k))%nat) by lia.
  rewrite Htot, Nat.Div0.mod_mul, Nat.div_mul by lia.
  cbn [Nat.eqb orb negb bind]. eexists. split; [reflexivity|].
  unfold transpose, nrows. cbn [rows ncols].
  rewrite length_map, length_seq. split; [|unfold split_blocks;
    now rewrite length_map, length_seq].
  assert (Hq : q = (l ^ k)%nat).
  { unfold q. clear. induction k; simpl; [reflexivity|]. now rewrite IHk. }
  rewrite Hq. simpl. lia.
Qed.

(** ** Fractional sizes (C7) *)

Lemma rotational_mapping_fractional (output_coords : coord_array) (size : pynum) :
  fractional size ->
  _rotational_mapping output_coords size = Raise SafeAsIntError.
Proof.
  intros H. unfold _rotational_mapping.
  now rewrite (fractional_rejected _ H).
Qed.

Lemma ndrotational_mapping_fractional (output_coords : coord_array)
    (size : pynum) :
  fractional size ->
  _ndrotational_mapping output_coords size = Raise SafeAsIntError.
Proof.
  intros H. unfold _ndrotational_mapping.
  now rewrite (fractional_rejected _ H).
Qed.

Lemma outcoords_fractional (size : pynum) (ndim : Z) :
  fractional size -> (2 <= ndim)%Z ->
  exists outcoords, outcoords_of size ndim = Ok outcoords.
Proof.
  intros Hf Hn. destruct Hf as (f & z & -> & Hf).
  unfold outcoords_of.
  destruct (Z.to_nat ndim) as [|k] eqn:Ek; [lia|].
  destruct (fractional_arange f) as (a & ->).
  { exists f, z. split; [reflexivity | assumption]. }
  cbn [bind].
  destruct (lattice_repeat a (S k)) as (out & -> & _); [lia|].
  now exists out.
Qed.

Section FractionalSize.

Variable get_window : window_spec -> pynum -> option (list float).
Variable interpolate : array2 float -> float -> float -> float.

(** C7. With a size that has a non-zero fractional part, such as 3.5,
    neither builder returns.  When the window generator accepts the call,
    [get_window2] raises the error of the integer coercion, an
    InvalidSizeError, and so does [get_windownd] for every [ndim] of two or
    more (below that the lattice cannot be built and numpy raises before
    the size is coerced). *)
Theorem fractional_size_rejected (window : window_spec) (size : pynum) :
  fractional size ->
  returns (get_window2 get_window interpolate window size) = false
  /\ (forall ndim, returns (get_windownd get_window window size ndim) = false)
  /\ (forall w, get_window window size = Some w ->
        get_window2 get_window interpolate window size = Raise SafeAsIntError
        /\ (forall ndim, (2 <= ndim)%Z ->
              get_windownd get_window window size ndim = Raise SafeAsIntError)
        /\ kind_of SafeAsIntError = Some InvalidSizeError).
Proof.
  intros Hf.
  assert (H2 : forall w, get_window window size = Some w ->
            get_window2 get_window interpolate window size
            = Raise SafeAsIntError).
  { intros w Hw. unfold get_window2, call_get_window. rewrite Hw. cbn [bind].
    unfold warp. cbn [fst snd].
    destruct (fractional_has_range _ Hf) as (l & ->). cbn [bind].
    now rewrite (rotational_mapping_fractional _ _ Hf). }
  split; [|split; [|intros w Hw; split; [|split]]].
  - destruct (get_window window size) as [w|] eqn:Hw.
    + now rewrite (H2 w).
    + unfold get_window2, call_get_window. now rewrite Hw.
  - intros ndim. unfold get_windownd.
    destruct (call_get_window get_window window size); [|reflexivity].
    cbn [bind]. destruct (outcoords_of size ndim); [|reflexivity].
    cbn [bind]. now rewrite (ndrotational_mapping_fractional _ _ Hf).
  - now apply (H2 w).
  - intros ndim Hn. rewrite (get_windownd_accepted _ _ _ _ _ Hw).
    destruct (outcoords_fractional _ ndim Hf Hn) as (oc & ->). cbn [bind].
    now rewrite (ndrotational_mapping_fractional _ _ Hf).
  - reflexivity.
Qed.

End FractionalSize.

(** ** Binary64 arithmetic on half-integers *)

Section Binary64.

Local Open Scope Z_scope.

Lemma SFadd_comm (x y : spec_float) : SF64add x y = SF64add y x.
Proof.
  unfold SF64add, SFadd.
  destruct x as [sx|sx| |sx mx ex], y as [sy|sy| |sy my ey];
    try reflexivity; try (destruct sx, sy; reflexivity).
  now rewrite Z.min_comm, Z.add_comm.
Qed.

Lemma float_add_comm (x y : float) : (x + y = y + x)%float.
Proof. apply Prim2SF_inj. now rewrite !add_spec, SFadd_comm. Qed.

Lemma SFmul_opp_opp (x : spec_float) :
  SF64mul (SFopp x) (SFopp x) = SF64mul x x.
Proof.
  unfold SF64mul, SFmul.
  destruct x as [s|s| |s m e]; simpl; try reflexivity; now destruct s.
Qed.

Lemma iter_pos_iter {A : Type} (f : A -> A) (p : positive) (x : A) :
  iter_pos f p x = Pos.iter f x p.
Proof.
  revert x. induction p as [p IH|p IH|]; intros x; simpl.
  - rewrite !IH. now rewrite <- !Pos.iter_swap.
  - now rewrite !IH.
  - reflexivity.
Qed.

Lemma shr_1_double (m : Z) :
  0 < m ->
  shr_1 (Build_shr_record (2 * m) false false) = Build_shr_record m false false.
Proof. destruct m; try lia. reflexivity. Qed.

Lemma iter_shr_1 (t : nat) (m : Z) :
  0 < m ->
  Nat.iter t shr_1 (Build_shr_record (m * 2 ^ Z.of_nat t) false false)
  = Build_shr_record m false false.
Proof.
  intros Hm. induction t as [|t IH].
  - simpl. now rewrite Z.mul_1_r.
  - rewrite Nat2Z.inj_succ, Z.pow_succ_r by lia.
    change (Nat.iter (S t) shr_1 ?x) with (shr_1 (Nat.iter t shr_1 x)).
    rewrite <- Nat.iter_swap.
    replace (m * (2 * 2 ^ Z.of_nat t)) with (2 * (m * 2 ^ Z.of_nat t)) by ring.
    rewrite shr_1_double; [exact IH|].
    apply Z.mul_pos_pos; [assumption|]. apply Z.pow_pos_nonneg; lia.
Qed.

Lemma shr_exact (m e t : Z) :
  0 < m -> 0 <= t ->
  shr (Build_shr_record (m * 2 ^ t) false false) e t
  = (Build_shr_record m false false, e + t).
Proof.
  intros Hm Ht. unfold shr. destruct t as [|p|p]; try lia.
  - now rewrite Z.mul_1_r, Z.add_0_r.
  - f_equal. rewrite iter_pos_iter, Pos2Nat.inj_iter.
    rewrite <- (positive_nat_Z p). now apply iter_shr_1.
Qed.

Lemma digits2_log2 (p : positive) :
  Z.pos (digits2_pos p) = Z.log2 (Z.pos p) + 1.
Proof.
  assert (H : digits2_pos p = Pos.size p) by (induction p; simpl; congruence).
  rewrite H. destruct p; simpl; try reflexivity; lia.
Qed.

Lemma Zdigits2_log2 (m : Z) : 0 < m -> Zdigits2 m = Z.log2 m + 1.
Proof. destruct m; try lia. intros _. apply digits2_log2. Qed.

Lemma shr_fexp_exact (M t c : Z) :
  0 < M -> Z.log2 M = 52 -> 0 <= t -> -1074 <= c ->
  shr_fexp prec emax (M * 2 ^ t) (c - t) loc_Exact
  = (Build_shr_record M false false, c).
Proof.
  intros HM Hlog Ht Hc. unfold shr_fexp.
  assert (Hpos : 0 < M * 2 ^ t)
    by (apply Z.mul_pos_pos; [assumption | apply Z.pow_pos_nonneg; lia]).
  rewrite (Zdigits2_log2 _ Hpos), Z.log2_mul_pow2, Hlog by lia.
  unfold fexp, SpecFloat.emin, prec, emax. cbn [shr_record_of_loc].
  replace (Z.max (t + 52 + 1 + (c - t) - 53) (3 - 1024 - 53) - (c - t)) with t
    by lia.
  rewrite (shr_exact M (c - t) t HM Ht). f_equal. lia.
Qed.

Lemma binary_round_aux_exact (s : bool) (M t c : Z) :
  0 < M -> Z.log2 M = 52 -> 0 <= t -> -1074 <= c <= 971 ->
  binary_round_aux prec emax s (M * 2 ^ t) (c - t) loc_Exact
  = S754_finite s (Z.to_pos M) c.
Proof.
  intros HM Hlog Ht Hc. unfold binary_round_aux.
  rewrite (shr_fexp_exact M t c) by lia.
  cbn [shr_m loc_of_shr_record round_nearest_even].
  replace M with (M * 2 ^ 0) at 1 by (simpl; lia).
  replace c with (c - 0) at 1 by lia.
  rewrite (shr_fexp_exact M 0 c) by lia.
  cbn [shr_m]. destruct M as [|M|M]; try lia.
  assert (H : (c <=? emax - prec) = true) by (apply Z.leb_le; unfold emax, prec; lia).
  now rewrite H.
Qed.

Lemma binary_round_exact (s : bool) (p q : positive) (k e : Z) :
  0 <= k ->
  Z.pos p = Z.pos q * 2 ^ k ->
  Z.log2 (Z.pos q) <= 52 ->
  -1074 <= e + Z.log2 (Z.pos q) - 52 <= 971 ->
  binary_round prec emax s p (e - k)
  = S754_finite s (Z.to_pos (Z.pos q * 2 ^ (52 - Z.log2 (Z.pos q))))
      (e + Z.log2 (Z.pos q) - 52).
Proof.
  intros Hk Hp Hd Hc. unfold binary_round.
  set (d := Z.log2 (Z.pos q)) in *.
  assert (Hd0 : 0 <= d) by apply Z.log2_nonneg.
  rewrite digits2_log2, Hp, Z.log2_mul_pow2 by lia. fold d.
  unfold fexp, SpecFloat.emin, prec, emax.
  replace (Z.max (k + d + 1 + (e - k) - 53) (3 - 1024 - 53)) with (e + d - 52)
    by lia.
  set (M := Z.pos q * 2 ^ (52 - d)).
  assert (HM : 0 < M) by (apply Z.mul_pos_pos; [lia | apply Z.pow_pos_nonneg; lia]).
  assert (HlogM : Z.log2 M = 52).
  { unfold M. rewrite Z.log2_mul_pow2 by lia. fold d. lia. }
  unfold shl_align.
  destruct (e + d - 52 - (e - k)) as [|t|t] eqn:Et.
  - replace (Z.pos p) with (M * 2 ^ 0).
    + replace (e - k) with (e + d - 52 - 0) by lia.
      apply binary_round_aux_exact; lia.
    + rewrite Hp. unfold M. replace k with (52 - d) by lia. simpl. lia.
  - replace (Z.pos p) with (M * 2 ^ Z.pos t).
    + replace (e - k) with (e + d - 52 - Z.pos t) by lia.
      apply binary_round_aux_exact; lia.
    + rewrite Hp. unfold M. rewrite <- Z.mul_assoc, <- Z.pow_add_r by lia.
      f_equal. f_equal. lia.
  - replace (Z.pos (Pos.iter xO p t)) with (M * 2 ^ 0).
    + replace (e + d - 52) with (e + d - 52 - 0) at 1 by lia.
      apply binary_round_aux_exact; lia.
    + change (Pos.iter xO p t) with (shift_pos t p).
      rewrite shift_pos_correct.
      change (Z.pow_pos 2 t) with (2 ^ Z.pos t).
      rewrite Hp. unfold M.
      replace (2 ^ 0) with 1 by reflexivity. rewrite Z.mul_1_r.
      replace (52 - d) with (k + Z.pos t) by lia.
      rewrite Z.pow_add_r by lia. ring.
Qed.

Lemma small_log2 (z : Z) : small z -> Z.log2 (Z.abs z) <= 52.
Proof.
  unfold small. intros H.
  destruct (Z.eq_dec (Z.abs z) 0) as [E|E]; [rewrite E; simpl; lia|].
  assert (Z.log2 (Z.abs z) < 53); [|lia].
  apply Z.log2_lt_pow2; lia.
Qed.

Lemma dyadic_canon (z k e : Z) :
  z <> 0 -> 0 <= k -> small z -> -1000 <= e <= 900 ->
  dyadic (z * 2 ^ k) (e - k)
  = S754_finite (z <? 0)
      (Z.to_pos (Z.abs z * 2 ^ (52 - Z.log2 (Z.abs z))))
      (e + Z.log2 (Z.abs z) - 52).
Proof.
  intros Hz Hk Hs He. apply small_log2 in Hs.
  assert (Hl := Z.log2_nonneg (Z.abs z)).
  assert (H2 : 0 < 2 ^ k) by (apply Z.pow_pos_nonneg; lia).
  unfold dyadic, binary_normalize.
  destruct z as [|q|q]; [congruence| |].
  - destruct (Z.pos q * 2 ^ k) as [|p|p] eqn:Ep; try lia.
    apply binary_round_exact; [lia | now symmetry | exact Hs | simpl in *; lia].
  - destruct (Z.neg q * 2 ^ k) as [|p|p] eqn:Ep; try lia.
    apply binary_round_exact; [lia | | exact Hs | simpl in *; lia].
    lia.
Qed.

Lemma dyadic_canon0 (z e : Z) :
  z <> 0 -> small z -> -1000 <= e <= 900 ->
  dyadic z e
  = S754_finite (z <? 0)
      (Z.to_pos (Z.abs z * 2 ^ (52 - Z.log2 (Z.abs z))))
      (e + Z.log2 (Z.abs z) - 52).
Proof.
  intros Hz Hs He.
  rewrite <- (dyadic_canon z 0 e Hz (Z.le_refl 0) Hs He).
  f_equal; [simpl; lia | lia].
Qed.

Lemma dyadic_scale (z k e : Z) :
  0 <= k -> small z -> -1000 <= e <= 900 ->
  dyadic (z * 2 ^ k) (e - k) = dyadic z e.
Proof.
  intros Hk Hs He. destruct (Z.eq_dec z 0) as [->|Hz]; [reflexivity|].
  now rewrite dyadic_canon, dyadic_canon0 by assumption.
Qed.

Lemma mantissa_log2 (z : Z) :
  z <> 0 -> small z ->
  Z.log2 (Z.abs z * 2 ^ (52 - Z.log2 (Z.abs z))) = 52.
Proof.
  intros Hz Hs. apply small_log2 in Hs.
  rewrite Z.log2_mul_pow2; lia.
Qed.

Lemma mantissa_pos (z : Z) :
  z <> 0 -> small z -> 0 < Z.abs z * 2 ^ (52 - Z.log2 (Z.abs z)).
Proof.
  intros Hz Hs. apply small_log2 in Hs.
  apply Z.mul_pos_pos; [lia | apply Z.pow_pos_nonneg; lia].
Qed.

Lemma dyadic_valid (z e : Z) :
  small z -> -1000 <= e <= 900 -> valid_binary (dyadic z e) = true.
Proof.
  intros Hs He. destruct (Z.eq_dec z 0) as [->|Hz]; [reflexivity|].
  rewrite dyadic_canon0 by assumption.
  pose proof (mantissa_log2 z Hz Hs) as Hl.
  pose proof (mantissa_pos z Hz Hs) as Hp.
  pose proof (small_log2 z Hs) as Hb.
  assert (Hn := Z.log2_nonneg (Z.abs z)).
  unfold SpecFloat.valid_binary, bounded, canonical_mantissa.
  rewrite digits2_log2, Z2Pos.id, Hl by assumption.
  unfold fexp, SpecFloat.emin, prec, emax.
  apply andb_true_intro. split; [apply Z.eqb_eq | apply Z.leb_le]; lia.
Qed.

Lemma dyadic_opp (z e : Z) :
  z <> 0 -> small z -> -1000 <= e <= 900 ->
  dyadic (- z) e = SFopp (dyadic z e).
Proof.
  intros Hz Hs He.
  rewrite !dyadic_canon0 by (unfold small in *; lia).
  rewrite Z.abs_opp. cbn [SFopp]. f_equal.
  destruct z; try congruence; reflexivity.
Qed.

Lemma shl_align_value (m : positive) (ex ez : Z) :
  ez <= ex ->
  Z.pos (fst (shl_align m ex ez)) = Z.pos m * 2 ^ (ex - ez).
Proof.
  intros H. unfold shl_align.
  destruct (ez - ex) as [|d|d] eqn:E; try lia.
  - replace (ex - ez) with 0 by lia. simpl. lia.
  - cbn [fst]. change (Pos.iter xO m d) with (shift_pos d m).
    rewrite shift_pos_correct. change (Z.pow_pos 2 d) with (2 ^ Z.pos d).
    replace (ex - ez) with (Z.pos d) by lia. ring.
Qed.

Lemma cond_Zopp_abs (z : Z) : cond_Zopp (z <? 0) (Z.abs z) = z.
Proof. destruct z; reflexivity. Qed.

Lemma SFsub_dyadic (a b e : Z) :
  small a -> small b -> small (a - b) -> -1000 <= e <= 900 ->
  SF64sub (dyadic a e) (dyadic b e) = dyadic (a - b) e.
Proof.
  intros Ha Hb Hab He.
  destruct (Z.eq_dec b 0) as [->|Hb0].
  { rewrite Z.sub_0_r. destruct (Z.eq_dec a 0) as [->|Ha0]; [reflexivity|].
    now rewrite (dyadic_canon0 a e). }
  destruct (Z.eq_dec a 0) as [->|Ha0].
  { rewrite Z.sub_0_l, dyadic_opp by assumption.
    now rewrite (dyadic_canon0 b e). }
  rewrite (dyadic_canon0 a e), (dyadic_canon0 b e) by assumption.
  pose proof (small_log2 a Ha) as Hla. pose proof (small_log2 b Hb) as Hlb.
  assert (Hna := Z.log2_nonneg (Z.abs a)). assert (Hnb := Z.log2_nonneg (Z.abs b)).
  unfold SF64sub, SFsub.
  set (Ea := e + Z.log2 (Z.abs a) - 52). set (Eb := e + Z.log2 (Z.abs b) - 52).
  set (ez := Z.min Ea Eb).
  rewrite !shl_align_value by (unfold ez; lia).
  rewrite !Z2Pos.id by (now apply mantissa_pos).
  assert (Hsh : forall z, z <> 0 -> small z ->
            ez <= e + Z.log2 (Z.abs z) - 52 ->
            cond_Zopp (z <? 0)
              (Z.abs z * 2 ^ (52 - Z.log2 (Z.abs z))
               * 2 ^ (e + Z.log2 (Z.abs z) - 52 - ez))
            = z * 2 ^ (e - ez)).
  { intros z Hz Hs Hle. pose proof (small_log2 z Hs) as Hl.
    assert (Hn := Z.log2_nonneg (Z.abs z)).
    rewrite <- Z.mul_assoc, <- Z.pow_add_r by lia.
    replace (52 - Z.log2 (Z.abs z) + (e + Z.log2 (Z.abs z) - 52 - ez))
      with (e - ez) by lia.
    rewrite <- (cond_Zopp_abs z) at 3.
    destruct (z <? 0); simpl; lia. }
  fold Ea Eb.
  unfold Ea at 1. unfold Eb at 1.
  rewrite (Hsh a), (Hsh b) by (assumption || (unfold ez, Ea, Eb; lia)).
  rewrite <- Z.mul_sub_distr_r.
  replace ez with (e - (e - ez)) at 2 by lia.
  apply dyadic_scale; [unfold ez, Ea; lia | assumption | assumption].
Qed.

Lemma Prim2SF_two : Prim2SF 2 = S754_finite false 4503599627370496 (-51).
Proof. vm_compute. reflexivity. Qed.

Lemma Prim2SF_half : Prim2SF 0.5 = dyadic 1 (-1).
Proof. vm_compute. reflexivity. Qed.

Lemma SFdiv_two (z e : Z) :
  small z -> -900 <= e <= 900 ->
  SF64div (dyadic z e) (Prim2SF 2) = dyadic z (e - 1).
Proof.
  intros Hs He. rewrite Prim2SF_two.
  destruct (Z.eq_dec z 0) as [->|Hz]; [reflexivity|].
  rewrite !dyadic_canon0 by (assumption || lia).
  pose proof (mantissa_log2 z Hz Hs) as Hl.
  pose proof (mantissa_pos z Hz Hs) as Hp.
  pose proof (small_log2 z Hs) as Hb.
  assert (Hn := Z.log2_nonneg (Z.abs z)).
  set (M := Z.abs z * 2 ^ (52 - Z.log2 (Z.abs z))) in *.
  set (E := e + Z.log2 (Z.abs z) - 52).
  unfold SF64div, SFdiv, SFdiv_core_binary.
  rewrite Z2Pos.id by assumption.
  rewrite (Zdigits2_log2 M Hp), Hl.
  change (Zdigits2 4503599627370496) with 53.
  unfold fexp, SpecFloat.emin, prec, emax.
  replace (Z.min (Z.max (52 + 1 + E - (53 + -51) - 53) (3 - 1024 - 53)) (E - -51))
    with (E - 2) by lia.
  replace (E - -51 - (E - 2)) with 53 by lia.
  rewrite Z.shiftl_mul_pow2 by lia.
  assert (Hdiv : Z.div_eucl (M * 2 ^ 53) 4503599627370496 = (M * 2 ^ 1, 0)).
  { rewrite (surjective_pairing (Z.div_eucl _ _)).
    change (fst (Z.div_eucl ?a ?b)) with (a / b).
    change (snd (Z.div_eucl ?a ?b)) with (a mod b).
    change 4503599627370496 with (2 ^ 52).
    replace (M * 2 ^ 53) with (M * 2 ^ 1 * 2 ^ 52) by (change (2 ^ 53) with (2 ^ 1 * 2 ^ 52); ring).
    rewrite Z.div_mul, Z.mod_mul by (apply Z.pow_nonzero; lia). reflexivity. }
  rewrite Hdiv.
  change (new_location 4503599627370496 0) with loc_Exact.
  rewrite xorb_false_r.
  replace (E - 2) with (E - 1 - 1) by lia.
  rewrite binary_round_aux_exact by (unfold E; lia).
  f_equal. unfold E. lia.
Qed.

Lemma Prim2SF_Z2float (z : Z) :
  small z -> Prim2SF (SF2Prim (dyadic z 0)) = dyadic z 0.
Proof. intros Hs. apply Prim2SF_SF2Prim. apply dyadic_valid; [assumption|lia]. Qed.

Lemma small_range (z : Z) : - 2 ^ 53 < z < 2 ^ 53 -> small z.
Proof. unfold small. lia. Qed.

Lemma center_of_spec (n : Z) :
  0 <= n <= 2 ^ 52 -> Prim2SF (center_of n) = dyadic (n - 1) (-1).
Proof.
  intros Hn. unfold center_of, Z2float.
  rewrite sub_spec, div_spec, Prim2SF_half.
  change (binary_normalize prec emax n 0 false) with (dyadic n 0).
  rewrite Prim2SF_Z2float by (apply small_range; lia).
  rewrite SFdiv_two by (try apply small_range; lia).
  apply SFsub_dyadic; try apply small_range; lia.
Qed.

Lemma offset_spec (j n : Z) :
  0 <= j < n -> n <= 2 ^ 52 ->
  Prim2SF (Z2float j - center_of n) = dyadic (2 * j - (n - 1)) (-1).
Proof.
  intros Hj Hn. rewrite sub_spec, center_of_spec by lia.
  unfold Z2float. change (binary_normalize prec emax j 0 false) with (dyadic j 0).
  rewrite Prim2SF_Z2float by (apply small_range; lia).
  rewrite <- (dyadic_scale j 1 0) by (try apply small_range; lia).
  change (0 - 1) with (-1). replace (j * 2 ^ 1) with (2 * j) by lia.
  apply SFsub_dyadic; try apply small_range; lia.
Qed.

Lemma square_reflect (j n : Z) :
  0 <= j < n -> n <= 2 ^ 52 ->
  ((Z2float (n - 1 - j) - center_of n) * (Z2float (n - 1 - j) - center_of n)
   = (Z2float j - center_of n) * (Z2float j - center_of n))%float.
Proof.
  intros Hj Hn. apply Prim2SF_inj. rewrite !mul_spec, !offset_spec by lia.
  replace (2 * (n - 1 - j) - (n - 1)) with (- (2 * j - (n - 1))) by lia.
  destruct (Z.eq_dec (2 * j - (n - 1)) 0) as [->|Hz]; [reflexivity|].
  rewrite dyadic_opp by (try apply small_range; lia).
  apply SFmul_opp_opp.
Qed.

End Binary64.

(** ** Symmetry of the 2-D window (C5) *)

Lemma nth_error_pixels (n : Z) (i : nat) :
  (i < Z.to_nat n)%nat ->
  nth_error (pixels n) i = Some (Z2float (Z.of_nat i)).
Proof.
  intros Hi. unfold pixels, arange_int.
  rewrite !nth_error_map, nth_error_seq.
  apply Nat.ltb_lt in Hi. now rewrite Hi.
Qed.

Lemma pick_map {A B : Type} (f : A -> B) (d : A) (j : nat) (l : list A) :
  (j < length l)%nat -> pick j (map f l) = [f (nth j l d)].
Proof.
  intros Hj. unfold pick.
  now rewrite nth_error_map, (nth_error_nth' l d Hj).
Qed.

Lemma transpose_grid {A : Type} (g : A -> A -> A) (px : list A) :
  (forall r c, g r c = g c r) ->
  transpose (Array2 (length px) (map (fun r => map (g r) px) px))
  = Array2 (length px) (map (fun r => map (g r) px) px).
Proof.
  intros Hsym. unfold transpose, nrows. cbn [rows ncols].
  rewrite length_map. f_equal.
  destruct px as [|d px'] eqn:E; [reflexivity|]. rewrite <- E. clear E px'.
  etransitivity; [|apply (map_seq_nth (fun r => map (g r) px) d px)].
  apply map_ext_in. intros j Hj. apply in_seq in Hj.
  rewrite flat_map_concat_map, map_map.
  rewrite (map_ext_in _ (fun r => [g r (nth j px d)])).
  - rewrite <- flat_map_concat_map.
    generalize (nth j px d) as c. intros c. clear Hj.
    induction px as [|r rs IH]; [reflexivity|].
    simpl. now rewrite IH, Hsym.
  - intros r _. apply pick_map. lia.
Qed.

Lemma entry_grid {A B : Type} (g : A -> A -> B) (px : list A) (k i j : nat)
    (r c : A) :
  nth_error px i = Some r ->
  nth_error px j = Some c ->
  entry (Array2 k (map (fun r => map (g r) px) px)) i j = Some (g r c).
Proof.
  intros Hi Hj. unfold entry. cbn [rows].
  now rewrite nth_error_map, Hi; cbn [option_map]; rewrite nth_error_map, Hj.
Qed.

Section Symmetry.

Variable get_window : window_spec -> pynum -> option (list float).
Variable interpolate : array2 float -> float -> float -> float.

Lemma window_value_swap (image : array2 float) (center r c : float) :
  window_value interpolate image center r c
  = window_value interpolate image center c r.
Proof. unfold window_value. now rewrite float_add_comm. Qed.

Lemma window_value_reflect (image : array2 float) (n i j : Z) :
  (0 <= i < n)%Z -> (0 <= j < n)%Z -> (n <= 2 ^ 52)%Z ->
  window_value interpolate image (center_of n)
    (Z2float (n - 1 - i)) (Z2float (n - 1 - j))
  = window_value interpolate image (center_of n) (Z2float i) (Z2float j).
Proof.
  intros Hi Hj Hn. unfold window_value.
  now rewrite (square_reflect i n Hi Hn), (square_reflect j n Hj Hn).
Qed.

(** C5. For an integer size [n] and a window the generator accepts, the
    array [get_window2] returns equals its transpose; and, for every size up
    to [2^52], its entries at [(i, j)] and [(n-1-i, n-1-j)] are the same
    float, whatever the resampling kernel. *)
Theorem get_window2_symmetric (window : window_spec) (size : pynum) (n : Z)
    (w : list float) :
  safe_as_int size = Ok n ->
  get_window window size = Some w ->
  exists window2d,
    get_window2 get_window interpolate window size = Ok window2d
    /\ transpose window2d = window2d
    /\ ((n <= 2 ^ 52)%Z ->
        forall i j : nat,
          (i < Z.to_nat n)%nat -> (j < Z.to_nat n)%nat ->
          exists v,
            entry window2d i j = Some v
            /\ entry window2d (Z.to_nat n - 1 - i) (Z.to_nat n - 1 - j) = Some v).
Proof.
  intros Hn Hw. rewrite (get_window2_accepted _ _ _ _ _ _ Hn Hw).
  eexists. split; [reflexivity|]. split.
  - rewrite <- (length_pixels n). apply transpose_grid.
    intros r c. apply window_value_swap.
  - intros Hb i j Hi Hj. eexists. split.
    + apply entry_grid; apply nth_error_pixels; assumption.
    + erewrite entry_grid; [| apply nth_error_pixels; lia ..].
      f_equal.
      replace (Z.of_nat (Z.to_nat n - 1 - i)) with (n - 1 - Z.of_nat i)%Z by lia.
      replace (Z.of_nat (Z.to_nat n - 1 - j)) with (n - 1 - Z.of_nat j)%Z by lia.
      apply window_value_reflect; lia.
Qed.

End Symmetry.

(** ** The boxcar window of size 5 *)

(** Every entry of the 5-by-5 boxcar window is the kernel's reading of the
    all-ones profile: the window is all ones for a kernel that reads 1
    from that profile at every row position. *)
Lemma boxcar_5_all_ones
    (interpolate : array2 float -> float -> float -> float) :
  (forall r, interpolate (profile_image (repeat 1%float 5)) r 0%float = 1%float) ->
  get_window2 sample_windows interpolate (WName "boxcar") (PyInt 5)
  = Ok (Array2 5 (repeat (repeat 1%float 5) 5)).
Proof.
  intros H.
  rewrite (get_window2_accepted sample_windows interpolate (WName "boxcar")
             (PyInt 5) 5 (repeat 1%float 5) eq_refl eq_refl).
  f_equal. f_equal.
  rewrite (map_ext _ (fun _ => map (fun _ => 1%float) (pixels 5))).
  - vm_compute. reflexivity.
  - intros r. apply map_ext. intros c. apply H.
Qed.

(** The corner pixels ask for the profile at row [sqrt 8], beyond row 2,
    the last of its three rows. *)
Lemma boxcar_5_corner_outside :
  _rotational_mapping (Float64Array (Array2 2 [[0; 0]%float])) (PyInt 5)
  = Ok (Array2 2 [[0; sqrt 8]%float])
  /\ (2 <? sqrt 8)%float = true
  /\ nrows (profile_image (repeat 1%float 5)) = 3%nat.
Proof. repeat split; vm_compute; reflexivity. Qed.

(** A kernel that repeats the edge outside the image gives the all-ones
    window. *)
Lemma boxcar_5_nearest_edge :
  get_window2 sample_windows nearest_edge (WName "boxcar") (PyInt 5)
  = Ok (Array2 5 (repeat (repeat 1%float 5) 5)).
Proof. vm_compute. reflexivity. Qed.

(** A kernel that reads 0 outside the image gives a window with zero
    corners. *)
Lemma boxcar_5_nearest_constant :
  get_window2 sample_windows nearest_constant (WName "boxcar") (PyInt 5)
  = Ok (Array2 5 [[0; 1; 1; 1; 0]; [1; 1; 1; 1; 1]; [1; 1; 1; 1; 1];
                  [1; 1; 1; 1; 1]; [0; 1; 1; 1; 0]]%float).
Proof. vm_compute. reflexivity. Qed.

(** * Further properties *)

(** ** Blocks and index tuples *)

Lemma block_flat_map_seq {A : Type} (c N k : nat) (f : nat -> list A) :
  (forall i, (i < N)%nat -> length (f i) = c) ->
  (k < N)%nat ->
  block c k (flat_map f (seq 0 N)) = f k.
Proof.
  revert k f. induction N as [|N IH]; intros k f Hlen Hk; [lia|].
  simpl. rewrite <- seq_shift, flat_map_concat_map, map_map,
    <- flat_map_concat_map.
  rewrite <- (Hlen 0%nat) by lia.
  destruct k as [|k].
  - apply block_0_app.
  - rewrite block_S_app. rewrite (Hlen 0%nat) by lia.
    apply (IH k (fun i => f (S i))); [|lia].
    intros i Hi. apply Hlen. lia.
Qed.

Lemma block_block {A : Type} (c Y x y : nat) (l : list A) :
  (y < Y)%nat ->
  block c y (block (Y * c) x l) = block c (x * Y + y) l.
Proof.
  intros Hy. unfold block.
  rewrite skipn_firstn_comm, firstn_firstn, skipn_skipn.
  f_equal; [nia|]. f_equal. nia.
Qed.

Lemma flat_map_seq_from {A : Type} (a Y : nat) (F : nat -> list A) :
  flat_map F (seq a Y) = flat_map (fun y => F (a + y)%nat) (seq 0 Y).
Proof.
  revert a. induction Y as [|Y IH]; intros a; [reflexivity|].
  simpl. rewrite Nat.add_0_r. f_equal.
  rewrite IH, <- seq_shift, (flat_map_concat_map _ (map S _)), map_map,
    <- flat_map_concat_map.
  apply flat_map_ext. intros y. f_equal. lia.
Qed.

Lemma flat_map_seq_mul {A : Type} (X Y : nat) (F : nat -> list A) :
  flat_map F (seq 0 (X * Y))
  = flat_map (fun x => flat_map (fun y => F (x * Y + y)%nat) (seq 0 Y)) (seq 0 X).
Proof.
  induction X as [|X IH]; [reflexivity|].
  rewrite seq_S, flat_map_app, <- IH. simpl. rewrite app_nil_r.
  replace (Y + X * Y)%nat with (X * Y + Y)%nat by lia.
  rewrite seq_app, flat_map_app. f_equal. simpl.
  apply flat_map_seq_from.
Qed.

Lemma flat_map_flat_map {A B C : Type} (F : B -> list C) (G : A -> list B)
    (l : list A) :
  flat_map F (flat_map G l) = flat_map (fun x => flat_map F (G x)) l.
Proof.
  induction l as [|x l IH]; [reflexivity|].
  simpl. now rewrite flat_map_app, IH.
Qed.

Lemma flat_map_map {A B C : Type} (F : B -> list C) (g : A -> B) (l : list A) :
  flat_map F (map g l) = flat_map (fun x => F (g x)) l.
Proof. now rewrite flat_map_concat_map, map_map, <- flat_map_concat_map. Qed.

Lemma flat_map_ext_seq {A : Type} (N : nat) (f g : nat -> list A) :
  (forall i, (i < N)%nat -> f i = g i) ->
  flat_map f (seq 0 N) = flat_map g (seq 0 N).
Proof.
  intros H. rewrite !flat_map_concat_map. f_equal.
  apply map_ext_in. intros i Hi. apply in_seq in Hi. apply H. lia.
Qed.

Lemma flat_map_indices_cons {A : Type} (F : list nat -> list A) (d : nat)
    (sh : list nat) :
  flat_map F (indices (d :: sh))
  = flat_map (fun i => flat_map (fun idx => F (i :: idx)) (indices sh)) (seq 0 d).
Proof.
  cbn [indices]. rewrite flat_map_flat_map.
  apply flat_map_ext. intros i. apply flat_map_map.
Qed.

Lemma combine_seq_repeat {A : Type} (a : A) (n s : nat) :
  combine (seq s n) (repeat a n) = map (fun m => (m, a)) (seq s n).
Proof.
  revert s. induction n as [|n IH]; intros s; [reflexivity|].
  simpl. now rewrite IH.
Qed.

Lemma length_indices_elem (sh t : list nat) :
  In t (indices sh) -> length t = length sh.
Proof.
  revert t. induction sh as [|d sh IH]; intros t Hin.
  - destruct Hin as [<-|[]]. reflexivity.
  - simpl in Hin. apply in_flat_map in Hin. destruct Hin as (i & _ & Hin).
    apply in_map_iff in Hin. destruct Hin as (t' & <- & Hin).
    simpl. f_equal. now apply IH.
Qed.

Lemma pick_flat_map_single {A B : Type} (f : A -> list B) (d : A) (q : nat)
    (xs : list A) :
  (forall x, In x xs -> length (f x) = 1%nat) ->
  (q < length xs)%nat ->
  pick q (flat_map f xs) = f (nth q xs d).
Proof.
  revert q. induction xs as [|x xs IH]; intros q Hlen Hq; [inversion Hq|].
  simpl. destruct (f x) as [|y [|? ?]] eqn:E;
    try (specialize (Hlen x (or_introl eq_refl)); rewrite E in Hlen;
         discriminate).
  destruct q as [|q].
  - now rewrite E.
  - unfold pick in *. simpl. apply IH.
    + intros x' Hx'. apply Hlen. now right.
    + simpl in Hq. lia.
Qed.

Lemma concatenate_same_shape {A : Type} (tup : list (ndarray A))
    (sh : list nat) (axis : nat) :
  tup <> [] ->
  (axis < length sh)%nat ->
  Forall (fun g => shape g = sh) tup ->
  concatenate tup axis
  = Ok (NdArray
          (firstn axis sh ++ [length tup * nth axis sh 0]%nat
           ++ skipn (S axis) sh)
          (flat_map
             (fun i => flat_map
                         (fun g => block (prod_list (skipn axis sh)) i (data g))
                         tup)
             (seq 0 (prod_list (firstn axis sh))))).
Proof.
  intros Hne Hax Hall.
  destruct tup as [|a0 tup']; [congruence|].
  assert (H0 : shape a0 = sh) by now inversion Hall.
  unfold concatenate. rewrite H0.
  set (tup := a0 :: tup') in *.
  apply Nat.ltb_lt in Hax as Hax'. rewrite Hax'.
  assert (Hsame : forallb (fun g => same_but_axis axis sh (shape g)) tup = true).
  { apply forallb_forall. intros g Hg.
    rewrite Forall_forall in Hall. rewrite (Hall g Hg).
    apply same_but_axis_refl. }
  rewrite Hsame. f_equal. f_equal.
  - f_equal. f_equal. f_equal. apply list_sum_constant.
    revert Hall. apply Forall_impl. now intros g ->.
  - apply flat_map_ext. intros i.
    rewrite !flat_map_concat_map. f_equal. apply map_ext_in.
    intros g Hg. rewrite Forall_forall in Hall. now rewrite (Hall g Hg).
Qed.

Lemma hstack_same_shape {A : Type} (tup : list (ndarray A)) (sh : list nat) :
  (2 <= length sh)%nat ->
  Forall (fun g => shape g = sh) tup ->
  hstack tup = concatenate tup 1.
Proof.
  intros Hlen Hall. unfold hstack.
  destruct tup as [|g tup']; [reflexivity|].
  inversion Hall as [|? ? Hs _]. rewrite Hs.
  destruct (length sh =? 1)%nat eqn:E; [|reflexivity].
  apply Nat.eqb_eq in E. lia.
Qed.

Lemma prod_list_cons (x : nat) (r : list nat) :
  prod_list (x :: r) = (x * prod_list r)%nat.
Proof. reflexivity. Qed.

Section RowMajor.

Context {A : Type}.
Variable a : list A.
Variable k : nat.

Local Abbreviation len := (length a).
Local Abbreviation ndim := (S (S k)).
Local Abbreviation rest := (repeat (length a) k).
Local Abbreviation cell := (prod_list (repeat (length a) k)).
Local Abbreviation cube := (length a :: length a :: repeat (length a) k).

Lemma repeat_sh : repeat len ndim = cube.
Proof. reflexivity. Qed.

Lemma meshgrid_explicit :
  meshgrid (repeat a ndim) = map (fun m => NdArray cube (grid_data a ndim cube m)) (seq 0 ndim).
Proof.
  unfold meshgrid.
  rewrite repeat_length, map_repeat, meshgrid_shape_repeat, combine_seq_repeat,
    map_map.
  reflexivity.
Qed.

Lemma length_grid_run (m i j : nat) :
  (m < ndim)%nat -> (i < len)%nat -> (j < len)%nat -> length (grid_run a rest m i j) = cell.
Proof.
  intros Hm Hi Hj. unfold grid_run.
  rewrite (flat_map_constant_length (c := 1)).
  - rewrite length_indices. lia.
  - intros idx Hin. apply length_pick.
    destruct m as [|[|m]]; simpl; try assumption.
    assert (Hk : (m < length rest)%nat)
      by (rewrite repeat_length; lia).
    pose proof (indices_bound _ _ _ Hin Hk) as Hb.
    rewrite repeat_length in Hk.
    now rewrite nth_repeat_lt in Hb.
Qed.

Lemma grid_data_runs (m : nat) :
  grid_data a ndim cube m
  = flat_map (fun i => flat_map (fun j => grid_run a rest m i j) (seq 0 len)) (seq 0 len).
Proof.
  unfold grid_data. rewrite flat_map_indices_cons.
  apply flat_map_ext. intros i. rewrite flat_map_indices_cons.
  apply flat_map_ext. intros j. unfold grid_run.
  apply flat_map_ext. intros idx.
  destruct m as [|[|m]]; reflexivity.
Qed.

Lemma axis_values_runs (m : nat) :
  axis_values a cube m
  = flat_map (fun j => flat_map (fun i => grid_run a rest m i j) (seq 0 len)) (seq 0 len).
Proof.
  unfold axis_values. rewrite flat_map_indices_cons.
  apply flat_map_ext. intros j. now rewrite flat_map_indices_cons.
Qed.

Lemma length_axis_values (m : nat) :
  (m < ndim)%nat -> length (axis_values a cube m) = (len * len * cell)%nat.
Proof.
  intros Hm. unfold axis_values. rewrite length_grid_data.
  - rewrite !prod_list_cons. lia.
  - simpl. rewrite repeat_length. lia.
  - change cube with (repeat len ndim). rewrite nth_repeat_lt by assumption.
    reflexivity.
Qed.

Lemma length_row_runs (m i : nat) :
  (m < ndim)%nat -> (i < len)%nat ->
  length (flat_map (fun j => grid_run a rest m i j) (seq 0 len)) = (len * cell)%nat.
Proof.
  intros Hm Hi. rewrite (flat_map_constant_length (c := cell)).
  - now rewrite length_seq.
  - intros j Hj. apply in_seq in Hj. apply length_grid_run; lia.
Qed.

Lemma hstack_explicit :
  hstack (meshgrid (repeat a ndim))
  = Ok (NdArray (len :: (ndim * len)%nat :: rest)
          (flat_map
             (fun i => flat_map
                         (fun m => flat_map (fun j => grid_run a rest m i j) (seq 0 len))
                         (seq 0 ndim))
             (seq 0 len))).
Proof.
  rewrite meshgrid_explicit.
  set (tup := map (fun m => NdArray cube (grid_data a ndim cube m)) (seq 0 ndim)).
  assert (Hall : Forall (fun g : ndarray A => shape g = cube) tup).
  { apply Forall_forall. intros g Hg. apply in_map_iff in Hg.
    now destruct Hg as (m & <- & _). }
  assert (Hlen : length tup = ndim)
    by (unfold tup; now rewrite length_map, length_seq).
  rewrite (hstack_same_shape tup cube) by (assumption || (simpl; lia)).
  rewrite (concatenate_same_shape tup cube 1);
    [| intros E; rewrite E in Hlen; discriminate | simpl; lia | assumption].
  rewrite Hlen. f_equal. f_equal.
  cbn [firstn prod_list fold_right]. rewrite Nat.mul_1_r.
  apply flat_map_ext_seq. intros i Hi.
  unfold tup. rewrite flat_map_map. cbn [data].
  apply flat_map_ext_seq. intros m Hm.
  rewrite grid_data_runs.
  apply (block_flat_map_seq (prod_list (skipn 1 cube)) len i); [|assumption].
  intros i' Hi'. rewrite length_row_runs by assumption.
  reflexivity.
Qed.

Lemma length_stacked_row (i : nat) :
  (i < len)%nat ->
  length (flat_map (fun m => flat_map (fun j => grid_run a rest m i j) (seq 0 len))
            (seq 0 ndim))
  = (ndim * len * cell)%nat.
Proof.
  intros Hi. rewrite (flat_map_constant_length (c := (len * cell)%nat)).
  - rewrite length_seq. lia.
  - intros m Hm. apply in_seq in Hm. apply length_row_runs; lia.
Qed.

Lemma stacked_block (i m j : nat) :
  (i < len)%nat -> (m < ndim)%nat -> (j < len)%nat ->
  block cell (i * (ndim * len) + (m * len + j))
    (flat_map
       (fun i => flat_map
                   (fun m => flat_map (fun j => grid_run a rest m i j) (seq 0 len))
                   (seq 0 ndim))
       (seq 0 len))
  = grid_run a rest m i j.
Proof.
  intros Hi Hm Hj.
  rewrite <- (block_block cell (ndim * len) i (m * len + j)) by nia.
  rewrite (block_flat_map_seq (ndim * len * cell) len i); [| |assumption].
  - rewrite <- (block_block cell len m j) by assumption.
    rewrite (block_flat_map_seq (len * cell) ndim m); [| |assumption].
    + apply (block_flat_map_seq cell len j); [|assumption].
      intros j' Hj'. now apply length_grid_run.
    + intros m' Hm'. now apply length_row_runs.
  - intros i' Hi'. now apply length_stacked_row.
Qed.

Lemma swapped_explicit :
  (stacked <- hstack (meshgrid (repeat a ndim)) ;; swapaxes01 stacked)
  = Ok (NdArray ((ndim * len)%nat :: len :: rest)
          (flat_map (axis_values a cube) (seq 0 ndim))).
Proof.
  rewrite hstack_explicit. cbn [bind]. unfold swapaxes01. cbn [shape data].
  f_equal. f_equal.
  rewrite flat_map_seq_mul.
  apply flat_map_ext_seq. intros m Hm.
  rewrite axis_values_runs.
  apply flat_map_ext_seq. intros j Hj.
  apply flat_map_ext_seq. intros i Hi.
  now apply stacked_block.
Qed.

Lemma reshaped_explicit :
  (stacked <- hstack (meshgrid (repeat a ndim)) ;;
   swapped <- swapaxes01 stacked ;;
   reshape_rows ndim swapped)
  = Ok (Array2 (len * len * cell) (map (axis_values a cube) (seq 0 ndim))).
Proof.
  pose proof swapped_explicit as Hs.
  destruct (hstack (meshgrid (repeat a ndim))) as [st|e]; [|discriminate].
  cbn [bind] in *. rewrite Hs. cbn [bind]. unfold reshape_rows. cbn [data].
  assert (Htot : length (flat_map (axis_values a cube) (seq 0 ndim)) = (len * len * cell * ndim)%nat).
  { rewrite (flat_map_constant_length (c := (len * len * cell)%nat)).
    - rewrite length_seq. lia.
    - intros m Hm. apply in_seq in Hm. apply length_axis_values. lia. }
  rewrite Htot, Nat.Div0.mod_mul, Nat.div_mul by lia.
  cbn [Nat.eqb orb negb]. f_equal. f_equal.
  unfold split_blocks. apply map_ext_in. intros m Hm. apply in_seq in Hm.
  apply block_flat_map_seq; [|lia].
  intros m' Hm'. now apply length_axis_values.
Qed.

Lemma indices_entries (t : list nat) (m : nat) :
  In t (indices cube) -> (m < ndim)%nat -> (nth m t 0 < len)%nat.
Proof.
  intros Hin Hm.
  assert (Hk : (m < length cube)%nat)
    by (simpl; rewrite repeat_length; lia).
  pose proof (indices_bound _ _ _ Hin Hk) as Hb.
  change cube with (repeat len ndim) in Hb. now rewrite nth_repeat_lt in Hb.
Qed.

Lemma transposed_row (q : nat) :
  (q < length (indices cube))%nat ->
  flat_map (pick q) (map (axis_values a cube) (seq 0 ndim))
  = flat_map (fun i => pick i a) (nth q (indices cube) []).
Proof.
  intros Hq. set (t := nth q (indices cube) []).
  assert (Hin : In t (indices cube)) by (apply nth_In; assumption).
  assert (Hlen : length t = ndim).
  { rewrite (length_indices_elem cube t Hin). simpl.
    now rewrite repeat_length. }
  assert (Ht : map (fun m => nth m t 0%nat) (seq 0 ndim) = t).
  { rewrite <- Hlen, (map_seq_nth (fun x => x) 0%nat t). apply map_id. }
  rewrite <- Ht at 1. rewrite !flat_map_map.
  apply flat_map_ext_seq. intros m Hm. unfold axis_values.
  rewrite (pick_flat_map_single _ [] q); [reflexivity| |assumption].
  intros t' Ht'. apply length_pick. now apply indices_entries.
Qed.

Lemma lattice_row_major_SS :
  lattice (repeat a ndim) ndim
  = Ok (Array2 ndim (map (fun t => flat_map (fun i => pick i a) t)
                      (indices (repeat len ndim)))).
Proof.
  unfold lattice. pose proof reshaped_explicit as Hr.
  destruct (hstack (meshgrid (repeat a ndim))) as [st|e]; [|discriminate].
  cbn [bind] in *.
  destruct (swapaxes01 st) as [sw|e]; [|discriminate].
  cbn [bind] in *. rewrite Hr. cbn [bind]. f_equal.
  unfold transpose, nrows. cbn [rows ncols].
  rewrite length_map, length_seq. f_equal.
  rewrite repeat_sh.
  replace (len * len * cell)%nat with (length (indices cube))
    by (rewrite length_indices, !prod_list_cons; lia).
  rewrite <- (map_seq_nth (fun t => flat_map (fun i => pick i a) t) []
                (indices cube)).
  apply map_ext_in. intros q Hq. apply in_seq in Hq.
  apply transposed_row. lia.
Qed.

End RowMajor.

Lemma lattice_row_major {A : Type} (a : list A) (n : nat) :
  (2 <= n)%nat ->
  lattice (repeat a n) n
  = Ok (Array2 n (map (fun t => flat_map (fun i => pick i a) t)
                      (indices (repeat (length a) n)))).
Proof.
  intros Hn. destruct n as [|[|k]]; try lia. apply lattice_row_major_SS.
Qed.

Lemma nth_error_block {A : Type} (c i r : nat) (l : list A) :
  (r < c)%nat -> nth_error (block c i l) r = nth_error l (i * c + r).
Proof.
  intros Hr. unfold block.
  rewrite nth_error_firstn. apply Nat.ltb_lt in Hr. rewrite Hr.
  apply nth_error_skipn.
Qed.

Lemma prod_list_repeat (s n : nat) : prod_list (repeat s n) = (s ^ n)%nat.
Proof. induction n as [|n IH]; simpl; [reflexivity|]. now rewrite <- IH. Qed.

Lemma nth_error_indices (s n q : nat) :
  (q < s ^ n)%nat ->
  nth_error (indices (repeat s n)) q = Some (digits s n q).
Proof.
  revert q. induction n as [|n IH]; intros q Hq.
  - simpl in *. assert (q = 0%nat) by lia. now subst.
  - cbn [repeat indices digits].
    assert (Hc : (0 < s ^ n)%nat).
    { destruct (s ^ n)%nat eqn:E; [simpl in Hq; rewrite E in Hq; lia | lia]. }
    assert (Hi : (q / s ^ n < s)%nat).
    { apply Nat.Div0.div_lt_upper_bound. simpl in Hq. lia. }
    assert (Hr : (q mod s ^ n < s ^ n)%nat) by (apply Nat.mod_upper_bound; lia).
    rewrite (Nat.div_mod_eq q (s ^ n)) at 1.
    rewrite (Nat.mul_comm (s ^ n)).
    rewrite <- (nth_error_block (s ^ n) (q / s ^ n) (q mod s ^ n)) by assumption.
    rewrite (block_flat_map_seq (s ^ n) s (q / s ^ n)); [| |assumption].
    + rewrite nth_error_map, (IH _ Hr). reflexivity.
    + intros i _. now rewrite length_map, length_indices, prod_list_repeat.
Qed.

Lemma indices_repeat_bound (s n : nat) (t : list nat) :
  In t (indices (repeat s n)) -> Forall (fun i => (i < s)%nat) t.
Proof.
  revert t. induction n as [|n IH]; intros t Hin.
  - destruct Hin as [<-|[]]. constructor.
  - simpl in Hin. apply in_flat_map in Hin. destruct Hin as (i & Hi & Hin).
    apply in_map_iff in Hin. destruct Hin as (t' & <- & Hin).
    apply in_seq in Hi. constructor; [lia | now apply IH].
Qed.

Lemma pick_range {B : Type} (g : nat -> B) (s : nat) (t : list nat) :
  Forall (fun i => (i < s)%nat) t ->
  flat_map (fun i => pick i (map g (seq 0 s))) t = map g t.
Proof.
  induction 1 as [|i t Hi _ IH]; [reflexivity|].
  simpl. rewrite IH. unfold pick.
  rewrite nth_error_map, nth_error_seq.
  apply Nat.ltb_lt in Hi. now rewrite Hi.
Qed.

Lemma lattice_of_range {B : Type} (g : nat -> B) (s n : nat) :
  (2 <= n)%nat ->
  lattice (repeat (map g (seq 0 s)) n) n
  = Ok (Array2 n (map (map g) (indices (repeat s n)))).
Proof.
  intros Hn. rewrite (lattice_row_major _ n Hn).
  rewrite length_map, length_seq. f_equal. f_equal.
  apply map_ext_in. intros t Ht. apply pick_range.
  now apply indices_repeat_bound with (n := n).
Qed.

Lemma outcoords_lattice (size : pynum) (s ndim : Z) :
  safe_as_int size = Ok s ->
  (2 <= ndim)%Z ->
  outcoords_of size ndim
  = Ok (Array2 (Z.to_nat ndim) (lattice_points (Z.to_nat s) (Z.to_nat ndim))).
Proof.
  intros Hs Hn. unfold outcoords_of.
  destruct (Z.to_nat ndim) as [|k] eqn:Ek; [lia|].
  assert (Hk : (2 <= S k)%nat) by lia.
  destruct size as [z|f]; simpl in Hs.
  - injection Hs as ->. unfold arange_int.
    rewrite (lattice_of_range Z.of_nat _ _ Hk). cbn [bind]. unfold map2d.
    cbn [ncols rows]. unfold lattice_points. f_equal. f_equal.
    rewrite map_map. apply map_ext. intros t. apply map_map.
  - unfold arange_float, float_ceil.
    destruct (float_trunc f) as [[z [|]]|]; try discriminate.
    injection Hs as ->. cbn [andb bind].
    apply (lattice_of_range (fun i => Z2float (Z.of_nat i)) _ _ Hk).
Qed.

Lemma zip_with_map_l {A B C : Type} (f : B -> A -> C) (g : A -> B) (l : list A) :
  zip_with f (map g l) l = map (fun x => f (g x) x) l.
Proof. induction l as [|x l IH]; simpl; congruence. Qed.

Lemma wf2_lattice_points (s n : nat) : wf2 (Array2 n (lattice_points s n)).
Proof.
  unfold wf2, lattice_points. cbn [rows ncols].
  apply Forall_forall. intros x Hx. apply in_map_iff in Hx.
  destruct Hx as (t & <- & Ht).
  now rewrite length_map, (length_indices_elem _ _ Ht), repeat_length.
Qed.

Lemma lattice_lone {A : Type} (a : list A) : lattice [a] 1 = Raise AxisError.
Proof.
  unfold lattice.
  assert (Hm : meshgrid [a]
               = [NdArray [length a]
                    (flat_map (fun idx => pick (nth 0 idx 0%nat) a)
                       (indices [length a]))]) by reflexivity.
  rewrite Hm. unfold hstack. cbn [shape length Nat.eqb].
  rewrite (concatenate_same_shape _ [length a] 0);
    [| discriminate | simpl; lia | repeat constructor].
  reflexivity.
Qed.

Lemma outcoords_below_2 (size : pynum) (ndim : Z) :
  (ndim < 2)%Z -> returns (outcoords_of size ndim) = false.
Proof.
  intros Hn. unfold outcoords_of.
  destruct (Z.to_nat ndim) as [|[|k]] eqn:E; try lia.
  - destruct size; reflexivity.
  - destruct size as [z|f]; cbn [repeat].
    + now rewrite lattice_lone.
    + destruct (arange_float f); cbn [bind repeat]; [|reflexivity].
      now rewrite lattice_lone.
Qed.

Lemma outcoords_lone (size : pynum) (s : Z) :
  safe_as_int size = Ok s -> outcoords_of size 1 = Raise AxisError.
Proof.
  intros Hs. unfold outcoords_of. change (Z.to_nat 1) with 1%nat.
  destruct size as [z|f].
  - cbn [repeat]. now rewrite lattice_lone.
  - simpl in Hs. unfold arange_float, float_ceil.
    destruct (float_trunc f) as [[z [|]]|]; try discriminate.
    cbn [bind repeat]. apply lattice_lone.
Qed.

Lemma ndrotational_raises (output_coords : coord_array) (size : pynum) (e : exn) :
  safe_as_int size = Raise e ->
  _ndrotational_mapping output_coords size = Raise e.
Proof. intros H. unfold _ndrotational_mapping. now rewrite H. Qed.

Lemma rotational_raises (output_coords : coord_array) (size : pynum) (e : exn) :
  safe_as_int size = Raise e ->
  _rotational_mapping output_coords size = Raise e.
Proof. intros H. unfold _rotational_mapping. now rewrite H. Qed.

Section NdResult.

Variable get_window : window_spec -> pynum -> option (list float).

Lemma get_windownd_lattice (window : window_spec) (size : pynum) (s ndim : Z)
    (w : list float) :
  safe_as_int size = Ok s ->
  (2 <= ndim)%Z ->
  get_window window size = Some w ->
  get_windownd get_window window size ndim
  = Ok (Array3 (Z.to_nat ndim) 2
          (map (fun x =>
                  zip_with (fun c o => [c; o])
                    (radius_of (center_of s) x
                     :: repeat 0%float (Z.to_nat ndim - 1))
                    x)
               (lattice_points (Z.to_nat s) (Z.to_nat ndim)))).
Proof.
  intros Hs Hn Hw.
  rewrite (get_windownd_accepted _ _ _ _ _ Hw), (outcoords_lattice _ _ _ Hs Hn).
  cbn [bind].
  rewrite (ndrotational_float _ _ _ Hs (wf2_lattice_points _ _))
    by (cbn [ncols]; lia).
  cbn [bind to_float64 ncols rows]. unfold dstack, nrows. cbn [rows ncols].
  rewrite length_map, !Nat.eqb_refl. cbn [andb]. f_equal. f_equal.
  apply zip_with_map_l.
Qed.

(** X1. [get_windownd] returns exactly when the window is accepted, there are
    two axes or more, and the size is integral. *)
Theorem get_windownd_returns_iff (window : window_spec) (size : pynum)
    (ndim : Z) :
  returns (get_windownd get_window window size ndim) = true
  <-> get_window window size <> None
      /\ (2 <= ndim)%Z
      /\ exists s, safe_as_int size = Ok s.
Proof.
  split.
  - intros H. unfold get_windownd, call_get_window in H.
    destruct (get_window window size) as [w|]; [|discriminate].
    cbn [bind] in H. split; [discriminate|].
    destruct (Z_lt_dec ndim 2) as [Hlt|Hge].
    + pose proof (outcoords_below_2 size ndim Hlt) as Ho.
      destruct (outcoords_of size ndim); discriminate.
    + split; [lia|].
      destruct (safe_as_int size) as [s|e] eqn:Es; [now exists s|].
      destruct (outcoords_of size ndim) as [oc|]; [|discriminate].
      cbn [bind] in H. now rewrite (ndrotational_raises _ _ _ Es) in H.
  - intros (Hw & Hn & s & Hs).
    destruct (get_window window size) as [w|] eqn:Ew; [|congruence].
    now rewrite (get_windownd_lattice _ _ _ _ _ Hs Hn Ew).
Qed.

(** X2. With one axis the builder always fails: the single grid is
    one-dimensional and has no axis 1 to exchange. *)
Theorem get_windownd_one_axis (window : window_spec) (size : pynum) (s : Z)
    (w : list float) :
  safe_as_int size = Ok s ->
  get_window window size = Some w ->
  get_windownd get_window window size 1 = Raise AxisError.
Proof.
  intros Hs Hw.
  now rewrite (get_windownd_accepted _ _ _ _ _ Hw), (outcoords_lone _ _ Hs).
Qed.

(** X3. The result for an integral size [s] and [ndim >= 2]: [s ^ ndim] blocks of
    shape [(ndim, 2)]; block [q] belongs to the lattice point whose
    coordinates are the base-[s] digits of [q], holds that point in its
    second column, and in its first column the distance of the point to the
    centre followed by zeros. *)
Theorem get_windownd_pairs (window : window_spec) (size : pynum) (s ndim : Z)
    (w : list float) :
  safe_as_int size = Ok s ->
  (2 <= ndim)%Z ->
  get_window window size = Some w ->
  exists all_coords,
    get_windownd get_window window size ndim = Ok all_coords
    /\ dim1 all_coords = Z.to_nat ndim
    /\ dim2 all_coords = 2%nat
    /\ length (cells all_coords) = (Z.to_nat s ^ Z.to_nat ndim)%nat
    /\ forall q : nat,
        (q < Z.to_nat s ^ Z.to_nat ndim)%nat ->
        let x := map (fun d => Z2float (Z.of_nat d))
                     (digits (Z.to_nat s) (Z.to_nat ndim) q) in
        let center := (Z2float s / 2 - 0.5)%float in
        let radius :=
          sqrt (np_sum (map (fun xj => ((xj - center) * (xj - center))%float) x)) in
        nth_error (cells all_coords) q
        = Some (zip_with (fun c o => [c; o])
                  (radius :: repeat 0%float (Z.to_nat ndim - 1)) x).
Proof.
  intros Hs Hn Hw. rewrite (get_windownd_lattice _ _ _ _ _ Hs Hn Hw).
  eexists. split; [reflexivity|]. cbn [dim1 dim2 cells].
  split; [reflexivity|]. split; [reflexivity|]. split.
  - unfold lattice_points.
    now rewrite !length_map, length_indices, prod_list_repeat.
  - intros q Hq. cbv zeta. unfold lattice_points.
    rewrite !nth_error_map, (nth_error_indices _ _ _ Hq). cbn [option_map].
    unfold radius_of, np_square, np_sub_scalar, center_of.
    now rewrite map_map.
Qed.

End NdResult.

Lemma binary_round_aux_not_negative (mz ez : Z) (lz : location) :
  SFltb (binary_round_aux prec emax false mz ez lz) (S754_zero false) = false.
Proof.
  unfold binary_round_aux.
  destruct (shr_fexp prec emax mz ez lz) as [mrs' e'].
  destruct (shr_fexp prec emax _ e' loc_Exact) as [mrs'' e''].
  destruct (shr_m mrs''); [reflexivity| |reflexivity].
  destruct (e'' <=? emax - prec)%Z; reflexivity.
Qed.

Lemma sqrt_not_negative (x : float) : (sqrt x <? 0)%float = false.
Proof.
  rewrite ltb_spec, sqrt_spec.
  change (Prim2SF 0) with (S754_zero false).
  unfold SF64sqrt, SFsqrt.
  destruct (Prim2SF x) as [s|[|]| |[|] m e]; try reflexivity.
  destruct (SFsqrt_core_binary prec emax (Z.pos m) e) as [[mz ez] lz].
  apply binary_round_aux_not_negative.
Qed.

(** X5. No mapper returns a negative radius. *)
Theorem radius_not_negative :
  (forall (output_coords : coord_array) (window_size : pynum)
          (coords : array2 float) (row : list float),
      _rotational_mapping output_coords window_size = Ok coords ->
      In row (rows coords) ->
      exists r, row = [0%float; r] /\ (r <? 0)%float = false)
  /\ (forall (output_coords coords : array2 float) (window_size : pynum)
             (row : list float),
        _ndrotational_mapping (Float64Array output_coords) window_size
        = Ok (Float64Array coords) ->
        In row (rows coords) ->
        exists r rest, row = r :: rest /\ (r <? 0)%float = false).
Proof.
  split.
  - intros oc ws coords row H Hin. unfold _rotational_mapping in H.
    destruct (safe_as_int ws) as [n|]; [|discriminate]. cbn [bind] in H.
    destruct (column 0 (to_float64 oc)) as [c0|]; [|discriminate].
    cbn [bind] in H.
    destruct (column 1 (to_float64 oc)) as [c1|]; [|discriminate].
    cbn [bind] in H. injection H as <-. cbn [rows] in Hin.
    unfold np_sqrt in Hin.
    revert Hin.
    generalize (np_add (np_square (np_sub_scalar c0 (center_of n)))
                       (np_square (np_sub_scalar c1 (center_of n)))).
    intros l. induction l as [|y l IH]; simpl; [tauto|].
    intros [<-|Hin]; [|now apply IH].
    eexists. split; [reflexivity | apply sqrt_not_negative].
  - intros oc coords ws row H Hin. unfold _ndrotational_mapping in H.
    destruct (safe_as_int ws) as [n|]; [|discriminate]. cbn [bind] in H.
    unfold assign_column0 in H. cbn [zeros_like coord_ncols map2d ncols] in H.
    destruct (0 <? ncols oc)%nat; [|discriminate].
    injection H as <-. cbn [rows] in Hin. unfold np_sqrt in Hin.
    rewrite map_map in Hin. revert Hin.
    generalize (fun r => np_sum (np_square (np_sub_scalar r (center_of n)))).
    intros f. induction (rows oc) as [|x l IH]; simpl; [tauto|].
    intros [<-|Hin]; [|now apply IH].
    eexists. eexists. split; [reflexivity | apply sqrt_not_negative].
Qed.

(** X8. On a two-column float array the N-D mapper returns what the 2-D mapper
    returns, with the two columns exchanged. *)
Theorem ndrotational_two_columns (output_coords : array2 float)
    (window_size : pynum) (n : Z) :
  safe_as_int window_size = Ok n ->
  ncols output_coords = 2%nat ->
  wf2 output_coords ->
  exists coords,
    _rotational_mapping (Float64Array output_coords) window_size = Ok coords
    /\ _ndrotational_mapping (Float64Array output_coords) window_size
       = Ok (Float64Array (Array2 2 (map (@rev float) (rows coords)))).
Proof.
  intros Hn Hc Hwf.
  assert (Hpos : (0 < ncols output_coords)%nat) by lia.
  rewrite (ndrotational_float _ _ _ Hn Hwf Hpos).
  unfold _rotational_mapping. rewrite Hn. cbn [bind to_float64].
  unfold column. rewrite Hc. cbn [Nat.ltb Nat.leb bind].
  unfold wf2 in Hwf. rewrite Hc in Hwf.
  eexists. split; [reflexivity|].
  rewrite (rotational_rows (center_of n) _ Hwf). cbn [rows].
  f_equal. f_equal. f_equal. rewrite map_map.
  apply map_ext_in. intros r Hr.
  rewrite Forall_forall in Hwf. specialize (Hwf r Hr).
  destruct r as [|c [|r' [|? ?]]]; try discriminate. reflexivity.
Qed.

Lemma rotational_int_rows (rs : list (list Z)) (n : Z) :
  Forall (fun p => length p = 2%nat) rs ->
  _rotational_mapping (Int64Array (Array2 2 rs)) (PyInt n)
  = Ok (Array2 2 (map (fun p => mapped_pair (center_of n) (map Z2float p)) rs)).
Proof.
  intros Hwf. unfold _rotational_mapping.
  cbn [safe_as_int bind to_float64 map2d ncols rows column Nat.ltb Nat.leb].
  rewrite (rotational_rows (center_of n)) by now apply Forall_length_map.
  now rewrite map_map.
Qed.

(** X6. The radius the 2-D mapper gives a pixel is the one it gives the pixel's
    images under the symmetries of the square: exchanging column and row,
    and mirroring either of them. *)
Theorem rotational_mapping_square_symmetry (rs : list (list Z)) (n : Z) :
  (n <= 2 ^ 52)%Z ->
  Forall (in_image n) rs ->
  let run (f : list Z -> list Z) :=
    _rotational_mapping (Int64Array (Array2 2 (map f rs))) (PyInt n) in
  run (@rev Z) = run (fun p => p)
  /\ run (fun p => match p with
                   | [c; r] => [n - 1 - c; r]%Z
                   | _ => p
                   end) = run (fun p => p)
  /\ run (fun p => match p with
                   | [c; r] => [c; n - 1 - r]%Z
                   | _ => p
                   end) = run (fun p => p).
Proof.
  intros Hn Hall run.
  assert (Hgen : forall f : list Z -> list Z,
            (forall p, in_image n p ->
               length (f p) = 2%nat
               /\ mapped_pair (center_of n) (map Z2float (f p))
                  = mapped_pair (center_of n) (map Z2float p)) ->
            run f = run (fun p => p)).
  { intros f Hf. unfold run.
    rewrite !rotational_int_rows.
    - rewrite !map_map. f_equal. f_equal. apply map_ext_in.
      intros p Hp. rewrite Forall_forall in Hall. now apply Hf, Hall.
    - rewrite map_id. revert Hall. apply Forall_impl.
      now intros p (c & r & -> & _).
    - apply Forall_forall. intros q Hq. apply in_map_iff in Hq.
      destruct Hq as (p & <- & Hp). rewrite Forall_forall in Hall.
      now apply Hf, Hall. }
  repeat split; apply Hgen; intros p (c & r & -> & Hc & Hr);
    (split; [reflexivity|]); cbn [rev app map mapped_pair].
  - now rewrite float_add_comm.
  - now rewrite (square_reflect c n Hc Hn).
  - now rewrite (square_reflect r n Hr Hn).
Qed.

Lemma offset_float (j n : Z) :
  (0 <= j < n)%Z -> (n <= 2 ^ 52)%Z ->
  (Z2float j - center_of n)%float = SF2Prim (dyadic (2 * j - (n - 1)) (-1)).
Proof.
  intros Hj Hn. rewrite <- (offset_spec j n Hj Hn). symmetry.
  apply SF2Prim_Prim2SF.
Qed.

(** X7. The centre of the image is mapped to radius 0 exactly when the size is
    odd, and the four pixels around it to [sqrt 0.5] when it is even. *)
Theorem rotational_mapping_centre :
  (forall k : Z,
      (0 <= k)%Z -> (2 * k + 1 <= 2 ^ 52)%Z ->
      _rotational_mapping (Int64Array (Array2 2 [[k; k]])) (PyInt (2 * k + 1))
      = Ok (Array2 2 [[0; 0]%float]))
  /\ (forall k c r : Z,
        (1 <= k)%Z -> (2 * k <= 2 ^ 52)%Z ->
        c = (k - 1)%Z \/ c = k ->
        r = (k - 1)%Z \/ r = k ->
        _rotational_mapping (Int64Array (Array2 2 [[c; r]])) (PyInt (2 * k))
        = Ok (Array2 2 [[0; sqrt 0.5]%float])).
Proof.
  split.
  - intros k Hk Hb. rewrite rotational_int_rows by (repeat constructor).
    cbn [map mapped_pair]. rewrite offset_float by lia.
    replace (2 * k - (2 * k + 1 - 1))%Z with 0%Z by lia.
    vm_compute. reflexivity.
  - intros k c r Hk Hb Hc Hr. rewrite rotational_int_rows by (repeat constructor).
    cbn [map mapped_pair]. rewrite !offset_float by lia.
    destruct Hc as [-> | ->], Hr as [-> | ->];
      try replace (2 * (k - 1) - (2 * k - 1))%Z with (-1)%Z by lia;
      try replace (2 * k - (2 * k - 1))%Z with 1%Z by lia;
      vm_compute; reflexivity.
Qed.

Lemma rev_flat_map {A B : Type} (f : A -> list B) (l : list A) :
  rev (flat_map f l) = flat_map (fun x => rev (f x)) (rev l).
Proof.
  induction l as [|x l IH]; [reflexivity|].
  simpl. rewrite rev_app_distr, IH, flat_map_app. simpl.
  now rewrite app_nil_r.
Qed.

Lemma map_over_flat_map {A B C : Type} (g : B -> C) (f : A -> list B) (l : list A) :
  map g (flat_map f l) = flat_map (fun x => map g (f x)) l.
Proof.
  induction l as [|x l IH]; [reflexivity|].
  simpl. now rewrite map_app, IH.
Qed.

Lemma rev_seq (s : nat) :
  rev (seq 0 s) = map (fun i => (s - 1 - i)%nat) (seq 0 s).
Proof.
  induction s as [|s IH]; [reflexivity|].
  rewrite seq_S at 1. rewrite rev_app_distr. simpl.
  rewrite IH, <- seq_shift, map_map. f_equal; [f_equal; lia|].
  apply map_ext. intros i. lia.
Qed.

Lemma rev_indices (s n : nat) :
  rev (indices (repeat s n))
  = map (map (fun i => (s - 1 - i)%nat)) (indices (repeat s n)).
Proof.
  induction n as [|n IH]; [reflexivity|].
  cbn [repeat indices].
  rewrite rev_flat_map, rev_seq, flat_map_map, map_over_flat_map.
  apply flat_map_ext. intros i.
  now rewrite <- map_rev, IH, !map_map.
Qed.

Lemma radius_reflect (s : Z) (t : list nat) :
  (s <= 2 ^ 52)%Z ->
  Forall (fun i => (i < Z.to_nat s)%nat) t ->
  radius_of (center_of s)
    (map (fun d => Z2float (Z.of_nat d))
         (map (fun i => (Z.to_nat s - 1 - i)%nat) t))
  = radius_of (center_of s) (map (fun d => Z2float (Z.of_nat d)) t).
Proof.
  intros Hs Ht. unfold radius_of, np_square, np_sub_scalar.
  rewrite !map_map. f_equal. f_equal.
  apply map_ext_in. intros i Hi. rewrite Forall_forall in Ht.
  specialize (Ht i Hi).
  replace (Z.of_nat (Z.to_nat s - 1 - i)) with (s - 1 - Z.of_nat i)%Z by lia.
  apply square_reflect; lia.
Qed.

Lemma pair_of_block (r : float) (x : list float) :
  x <> [] ->
  pair_radius (zip_with (fun c o => [c; o])
                 (r :: repeat 0%float (length x - 1)) x) = r
  /\ pair_coordinate (zip_with (fun c o => [c; o])
                        (r :: repeat 0%float (length x - 1)) x) = x.
Proof.
  intros Hx. destruct x as [|x0 x]; [congruence|].
  cbn [length Nat.sub zip_with]. rewrite Nat.sub_0_r.
  split; [reflexivity|]. unfold pair_coordinate. cbn [map nth]. f_equal.
  induction x as [|y x IH]; [reflexivity|]. simpl. f_equal. apply IH.
  discriminate.
Qed.

Lemma Z2float_sub (x y : Z) :
  small x -> small y -> small (x - y) ->
  (Z2float x - Z2float y)%float = Z2float (x - y).
Proof.
  intros Hx Hy Hxy. apply Prim2SF_inj. rewrite sub_spec. unfold Z2float.
  change (binary_normalize prec emax ?z 0 false) with (dyadic z 0).
  rewrite !Prim2SF_Z2float by assumption.
  apply SFsub_dyadic; (assumption || lia).
Qed.

Section NdSymmetry.

Variable get_window : window_spec -> pynum -> option (list float).

(** X4. The blocks of [get_windownd] at positions [q] and [M - 1 - q] belong to
    lattice points that are mirror images through the centre of the cube,
    and hold the same radius. *)
Theorem get_windownd_point_symmetry (window : window_spec) (size : pynum)
    (s ndim : Z) (w : list float) :
  safe_as_int size = Ok s ->
  (2 <= ndim)%Z ->
  (s <= 2 ^ 52)%Z ->
  get_window window size = Some w ->
  exists all_coords,
    get_windownd get_window window size ndim = Ok all_coords
    /\ forall q : nat,
        (q < length (cells all_coords))%nat ->
        exists p p',
          nth_error (cells all_coords) q = Some p
          /\ nth_error (cells all_coords) (length (cells all_coords) - 1 - q)
             = Some p'
          /\ pair_coordinate p'
             = map (fun x => (Z2float (s - 1) - x)%float) (pair_coordinate p)
          /\ pair_radius p' = pair_radius p.
Proof.
  intros Hs Hn Hb Hw. rewrite (get_windownd_lattice _ _ _ _ _ _ Hs Hn Hw).
  eexists. split; [reflexivity|]. cbn [cells].
  set (S := Z.to_nat s). set (N := Z.to_nat ndim).
  set (G := fun x : list float =>
              zip_with (fun c o => [c; o])
                (radius_of (center_of s) x :: repeat 0%float (N - 1)) x).
  unfold lattice_points. rewrite !length_map. intros q Hq.
  set (I := indices (repeat S N)) in *.
  destruct (nth_error I q) as [t|] eqn:Et;
    [|apply nth_error_None in Et; lia].
  assert (Hin : In t I) by (eapply nth_error_In; eassumption).
  assert (Ht : Forall (fun i => (i < S)%nat) t)
    by (apply (indices_repeat_bound S N); assumption).
  assert (Hlen : length t = N)
    by (unfold I in Hin; rewrite (length_indices_elem _ _ Hin);
        apply repeat_length).
  assert (Et' : nth_error I (length I - 1 - q)
                = Some (map (fun i => (S - 1 - i)%nat) t)).
  { pose proof (nth_error_rev (length I - 1 - q) I) as Hrev.
    assert (Hlt : (length I - 1 - q <? length I)%nat = true)
      by (apply Nat.ltb_lt; lia).
    rewrite Hlt in Hrev.
    replace (length I - Datatypes.S (length I - 1 - q))%nat with q in Hrev by lia.
    unfold I in Hrev at 1. rewrite rev_indices in Hrev. fold I in Hrev.
    rewrite nth_error_map in Hrev.
    destruct (nth_error I (length I - 1 - q)) as [t'|] eqn:E';
      [|apply nth_error_None in E'; lia].
    cbn [option_map] in Hrev. rewrite Et in Hrev. injection Hrev as Hrev.
    f_equal. rewrite <- Hrev, map_map.
    rewrite <- (map_id t') at 1. apply map_ext_in. intros i Hi.
    assert (Hin' : In t' I) by (eapply nth_error_In; eassumption).
    pose proof (indices_repeat_bound S N t' Hin') as Hb'.
    rewrite Forall_forall in Hb'. specialize (Hb' i Hi). lia. }
  exists (G (map (fun d => Z2float (Z.of_nat d)) t)),
         (G (map (fun d => Z2float (Z.of_nat d))
                 (map (fun i => (S - 1 - i)%nat) t))).
  rewrite !nth_error_map, Et, Et'. cbn [option_map].
  split; [reflexivity|]. split; [reflexivity|].
  assert (HN : N <> 0%nat) by (unfold N; lia).
  assert (Hne : forall u : list nat, length u = N ->
            map (fun d => Z2float (Z.of_nat d)) u <> []).
  { intros u Hu E. apply (f_equal (@length float)) in E.
    rewrite length_map in E. simpl in E. lia. }
  unfold G.
  replace N with (length (map (fun d => Z2float (Z.of_nat d)) t))
    by (now rewrite length_map) .
  destruct (pair_of_block (radius_of (center_of s)
                             (map (fun d => Z2float (Z.of_nat d)) t))
              (map (fun d => Z2float (Z.of_nat d)) t)) as [Hr Hc];
    [now apply Hne|].
  rewrite Hr, Hc.
  replace (length (map (fun d => Z2float (Z.of_nat d)) t))
    with (length (map (fun d => Z2float (Z.of_nat d))
                      (map (fun i => (S - 1 - i)%nat) t)))
    by (now rewrite !length_map).
  destruct (pair_of_block
              (radius_of (center_of s)
                 (map (fun d => Z2float (Z.of_nat d))
                      (map (fun i => (S - 1 - i)%nat) t)))
              (map (fun d => Z2float (Z.of_nat d))
                   (map (fun i => (S - 1 - i)%nat) t))) as [Hr' Hc'];
    [apply Hne; now rewrite length_map|].
  rewrite Hr', Hc'. split.
  - rewrite !map_map. apply map_ext_in. intros i Hi.
    rewrite Forall_forall in Ht. specialize (Ht i Hi).
    rewrite Z2float_sub by (apply small_range; lia).
    f_equal. lia.
  - apply radius_reflect; assumption.
Qed.

End NdSymmetry.

Lemma column_firstn2 {A : Type} (j : nat) (rs : list (list A)) :
  (j < 2)%nat ->
  flat_map (pick j) (map (firstn 2) rs) = flat_map (pick j) rs.
Proof.
  intros Hj. rewrite flat_map_map. apply flat_map_ext. intros r.
  unfold pick. rewrite nth_error_firstn.
  apply Nat.ltb_lt in Hj. now rewrite Hj.
Qed.

(** X9. The 2-D mapper reads columns 0 and 1 only: an array with fewer columns
    raises IndexError, further columns are ignored; the N-D mapper raises
    IndexError on an array without columns. *)
Theorem mapper_columns (output_coords : array2 float) (window_size : pynum)
    (n : Z) :
  safe_as_int window_size = Ok n ->
  ((ncols output_coords < 2)%nat ->
   _rotational_mapping (Float64Array output_coords) window_size
   = Raise IndexError)
  /\ ((2 <= ncols output_coords)%nat ->
      _rotational_mapping (Float64Array output_coords) window_size
      = _rotational_mapping
          (Float64Array (Array2 2 (map (firstn 2) (rows output_coords))))
          window_size)
  /\ (ncols output_coords = 0%nat ->
      _ndrotational_mapping (Float64Array output_coords) window_size
      = Raise IndexError).
Proof.
  intros Hn. unfold _rotational_mapping, _ndrotational_mapping.
  rewrite Hn. cbn [bind to_float64]. unfold column. cbn [ncols rows].
  split; [|split].
  - intros Hc. destruct (ncols output_coords) as [|[|c]]; try lia; reflexivity.
  - intros Hc.
    assert (H0 : (0 <? ncols output_coords)%nat = true) by (apply Nat.ltb_lt; lia).
    assert (H1 : (1 <? ncols output_coords)%nat = true) by (apply Nat.ltb_lt; lia).
    rewrite H0, H1. cbn [Nat.ltb Nat.leb bind].
    now rewrite !column_firstn2 by lia.
  - intros Hc. unfold assign_column0.
    cbn [zeros_like coord_ncols map2d ncols]. now rewrite Hc.
Qed.

Section Builder2dReturns.

Variable get_window : window_spec -> pynum -> option (list float).
Variable interpolate : array2 float -> float -> float -> float.

(** X10. [get_window2] returns exactly when the window is accepted and the size
    is integral. *)
Theorem get_window2_returns_iff (window : window_spec) (size : pynum) :
  returns (get_window2 get_window interpolate window size) = true
  <-> get_window window size <> None /\ exists s, safe_as_int size = Ok s.
Proof.
  split.
  - intros H. unfold get_window2, call_get_window in H.
    destruct (get_window window size) as [w|]; [|discriminate].
    split; [discriminate|]. cbn [bind] in H. unfold warp in H. cbn [fst snd] in H.
    destruct (safe_as_int size) as [s|e] eqn:Es; [now exists s|].
    destruct (pixel_range size); [|discriminate]. cbn [bind] in H.
    now rewrite (rotational_raises _ _ _ Es) in H.
  - intros (Hw & s & Hs).
    destruct (get_window window size) as [w|] eqn:Ew; [|congruence].
    now rewrite (get_window2_accepted _ _ _ _ _ _ Hs Ew).
Qed.

End Builder2dReturns.

(** * Instances *)

Lemma rotational_mapping_radius_witness :
  safe_as_int (PyFloat 4) = Ok 4%Z
  /\ coord_ncols (Int64Array (Array2 2 [[0; 0]; [3; 1]]%Z)) = 2%nat
  /\ wf2 (to_float64 (Int64Array (Array2 2 [[0; 0]; [3; 1]]%Z)))
  /\ exists coords,
       _rotational_mapping (Int64Array (Array2 2 [[0; 0]; [3; 1]]%Z)) (PyFloat 4)
       = Ok coords
       /\ nth_error (rows coords) 1
          = Some [0; sqrt ((3 - 1.5) * (3 - 1.5) + (1 - 1.5) * (1 - 1.5))]%float.
Proof.
  assert (H1 : safe_as_int (PyFloat 4) = Ok 4%Z) by (vm_compute; reflexivity).
  assert (H2 : coord_ncols (Int64Array (Array2 2 [[0; 0]; [3; 1]]%Z)) = 2%nat)
    by reflexivity.
  assert (H3 : wf2 (to_float64 (Int64Array (Array2 2 [[0; 0]; [3; 1]]%Z))))
    by (repeat constructor).
  split; [exact H1|]. split; [exact H2|]. split; [exact H3|].
  destruct (proj1 rotational_mapping_radius _ _ _ H1 H2 H3)
    as (coords & Hc & _ & _ & Hrow).
  exists coords. split; [exact Hc|].
  apply (Hrow 1%nat 3%float 1%float). vm_compute. reflexivity.
Defined.

Lemma ndrotational_mapping_distance_witness :
  safe_as_int (PyInt 1) = Ok 1%Z
  /\ wf2 (Array2 8 [[100000000; 1; 1; 1; 1; 1; 1; 1]; [3; 4; 0; 0; 0; 0; 0; 0]]%float)
  /\ (0 < ncols (Array2 8 [[100000000; 1; 1; 1; 1; 1; 1; 1];
                           [3; 4; 0; 0; 0; 0; 0; 0]]%float))%nat
  /\ exists coords,
       _ndrotational_mapping_ordered C_order
         (Float64Array (Array2 8 [[100000000; 1; 1; 1; 1; 1; 1; 1];
                                  [3; 4; 0; 0; 0; 0; 0; 0]]%float)) (PyInt 1)
       = Ok (Float64Array coords)
       /\ ncols coords = 8%nat
       /\ nrows coords = 2%nat
       /\ nth_error (rows coords) 0
          = Some [0x1.7d78400000002p+26; 0; 0; 0; 0; 0; 0; 0]%float
       /\ nth_error (rows coords) 1 = Some [5; 0; 0; 0; 0; 0; 0; 0]%float.
Proof.
  assert (H2 : wf2 (Array2 8 [[100000000; 1; 1; 1; 1; 1; 1; 1];
                              [3; 4; 0; 0; 0; 0; 0; 0]]%float))
    by (repeat constructor).
  assert (H3 : (0 < ncols (Array2 8 [[100000000; 1; 1; 1; 1; 1; 1; 1];
                                     [3; 4; 0; 0; 0; 0; 0; 0]]%float))%nat)
    by (simpl; lia).
  split; [reflexivity|]. split; [exact H2|]. split; [exact H3|].
  destruct (ndrotational_mapping_distance C_order _ (PyInt 1) 1 eq_refl H2 H3)
    as (coords & Hc & Hn & Hm & Hrow).
  exists coords. split; [exact Hc|]. split; [exact Hn|]. split; [exact Hm|].
  split.
  - rewrite (Hrow 0%nat _ eq_refl). vm_compute. reflexivity.
  - rewrite (Hrow 1%nat _ eq_refl). vm_compute. reflexivity.
Defined.


Lemma get_windownd_hann_4_3_witness :
  sample_windows (WName "hann") (PyInt 4) = Some [0; 0.75; 0.75; 0]%float
  /\ exists all_coords,
       get_windownd sample_windows (WName "hann") (PyInt 4) 3 = Ok all_coords
       /\ length (cells all_coords) = 64%nat.
Proof.
  split; [reflexivity|].
  destruct (get_windownd_hann_4_3 sample_windows _ eq_refl)
    as (all_coords & Hr & Hlen & _).
  exists all_coords. auto.
Defined.

Lemma get_windownd_ndim_below_1_witness :
  (0 < 1)%Z
  /\ returns (get_windownd sample_windows (WName "hann") (PyInt 4) 0) = false.
Proof.
  split; [reflexivity|].
  apply (get_windownd_ndim_below_1 sample_windows (WName "hann") (PyInt 4) 0).
  reflexivity.
Defined.

Lemma get_windownd_ignores_window_witness :
  sample_windows (WName "hann") (PyInt 4) <> None
  /\ sample_windows (WName "boxcar") (PyInt 4) <> None
  /\ get_windownd sample_windows (WName "hann") (PyInt 4) 3
     = get_windownd sample_windows (WName "boxcar") (PyInt 4) 3.
Proof.
  assert (H1 : sample_windows (WName "hann") (PyInt 4) <> None)
    by (simpl; discriminate).
  assert (H2 : sample_windows (WName "boxcar") (PyInt 4) <> None)
    by (simpl; discriminate).
  split; [exact H1|]. split; [exact H2|].
  exact (get_windownd_ignores_window sample_windows _ _ (PyInt 4) 3 H1 H2).
Defined.

Lemma get_window2_shape_witness :
  safe_as_int (PyInt 5) = Ok 5%Z
  /\ (0 <= 5)%Z
  /\ sample_windows (WName "boxcar") (PyInt 5) = Some (repeat 1%float 5)
  /\ exists window2d,
       get_window2 sample_windows nearest_constant (WName "boxcar") (PyInt 5)
       = Ok window2d
       /\ Z.of_nat (nrows window2d) = 5%Z
       /\ Z.of_nat (ncols window2d) = 5%Z
       /\ wf2 window2d.
Proof.
  split; [reflexivity|]. split; [lia|]. split; [reflexivity|].
  apply (get_window2_shape sample_windows nearest_constant
           (WName "boxcar") (PyInt 5) 5 (repeat 1%float 5));
    [reflexivity | lia | reflexivity].
Defined.

Lemma fractional_size_rejected_witness :
  fractional (PyFloat 3.5)
  /\ lenient_windows (WName "boxcar") (PyFloat 3.5) = Some (repeat 1%float 4)
  /\ get_window2 lenient_windows nearest_constant (WName "boxcar") (PyFloat 3.5)
     = Raise SafeAsIntError
  /\ get_windownd lenient_windows (WName "boxcar") (PyFloat 3.5) 3
     = Raise SafeAsIntError.
Proof.
  assert (Hf : fractional (PyFloat 3.5)).
  { exists 3.5%float, 3%Z. split; [reflexivity | vm_compute; reflexivity]. }
  assert (Hw : lenient_windows (WName "boxcar") (PyFloat 3.5)
               = Some (repeat 1%float 4)) by (vm_compute; reflexivity).
  split; [exact Hf|]. split; [exact Hw|].
  destruct (fractional_size_rejected lenient_windows nearest_constant
              (WName "boxcar") (PyFloat 3.5) Hf) as (_ & _ & H).
  destruct (H _ Hw) as (H2 & Hn & _).
  split; [exact H2 | apply Hn; lia].
Defined.

Lemma get_window2_symmetric_witness :
  safe_as_int (PyInt 4) = Ok 4%Z
  /\ sample_windows (WName "hann") (PyInt 4) = Some [0; 0.75; 0.75; 0]%float
  /\ exists window2d,
       get_window2 sample_windows nearest_constant (WName "hann") (PyInt 4)
       = Ok window2d
       /\ transpose window2d = window2d
       /\ exists v, entry window2d 0 1 = Some v /\ entry window2d 3 2 = Some v.
Proof.
  split; [reflexivity|]. split; [reflexivity|].
  destruct (get_window2_symmetric sample_windows nearest_constant
              (WName "hann") (PyInt 4) 4 [0; 0.75; 0.75; 0]%float
              eq_refl eq_refl) as (window2d & Hr & Ht & Hp).
  exists window2d. split; [exact Hr|]. split; [exact Ht|].
  apply (Hp ltac:(lia) 0%nat 1%nat); simpl; lia.
Defined.

Lemma get_windownd_one_axis_witness :
  safe_as_int (PyInt 4) = Ok 4%Z
  /\ sample_windows (WName "hann") (PyInt 4) = Some [0; 0.75; 0.75; 0]%float
  /\ get_windownd sample_windows (WName "hann") (PyInt 4) 1 = Raise AxisError.
Proof.
  split; [reflexivity|]. split; [reflexivity|].
  exact (get_windownd_one_axis sample_windows (WName "hann") (PyInt 4) 4
           [0; 0.75; 0.75; 0]%float eq_refl eq_refl).
Defined.

Lemma get_windownd_pairs_witness :
  safe_as_int (PyInt 4) = Ok 4%Z
  /\ (2 <= 2)%Z
  /\ sample_windows (WName "hann") (PyInt 4) = Some [0; 0.75; 0.75; 0]%float
  /\ exists all_coords,
       get_windownd sample_windows (WName "hann") (PyInt 4) 2 = Ok all_coords
       /\ length (cells all_coords) = 16%nat
       /\ nth_error (cells all_coords) 6
          = Some [[sqrt 0.5; 1]; [0; 2]]%float.
Proof.
  split; [reflexivity|]. split; [lia|]. split; [reflexivity|].
  destruct (get_windownd_pairs sample_windows (WName "hann") (PyInt 4) 4 2
              [0; 0.75; 0.75; 0]%float eq_refl ltac:(lia) eq_refl)
    as (all_coords & Hr & _ & _ & Hlen & Hq).
  exists all_coords. split; [exact Hr|]. split; [exact Hlen|].
  rewrite (Hq 6%nat) by (simpl; lia). vm_compute. reflexivity.
Defined.

Lemma get_windownd_point_symmetry_witness :
  safe_as_int (PyInt 4) = Ok 4%Z
  /\ (2 <= 3)%Z
  /\ (4 <= 2 ^ 52)%Z
  /\ sample_windows (WName "hann") (PyInt 4) = Some [0; 0.75; 0.75; 0]%float
  /\ exists all_coords,
       get_windownd sample_windows (WName "hann") (PyInt 4) 3 = Ok all_coords
       /\ forall q : nat,
           (q < length (cells all_coords))%nat ->
           exists p p',
             nth_error (cells all_coords) q = Some p
             /\ nth_error (cells all_coords) (length (cells all_coords) - 1 - q)
                = Some p'
             /\ pair_coordinate p'
                = map (fun x => (Z2float (4 - 1) - x)%float) (pair_coordinate p)
             /\ pair_radius p' = pair_radius p.
Proof.
  split; [reflexivity|]. split; [lia|]. split; [lia|]. split; [reflexivity|].
  exact (get_windownd_point_symmetry sample_windows (WName "hann") (PyInt 4) 4 3
           [0; 0.75; 0.75; 0]%float eq_refl ltac:(lia) ltac:(lia) eq_refl).
Defined.

Lemma radius_not_negative_witness :
  _rotational_mapping (Float64Array (Array2 2 [[0; 3]%float])) (PyInt 4)
  = Ok (Array2 2 [[0; sqrt 4.5]%float])
  /\ exists r, [0; sqrt 4.5]%float = [0%float; r] /\ (r <? 0)%float = false.
Proof.
  assert (H : _rotational_mapping (Float64Array (Array2 2 [[0; 3]%float]))
                (PyInt 4) = Ok (Array2 2 [[0; sqrt 4.5]%float]))
    by (vm_compute; reflexivity).
  split; [exact H|].
  apply (proj1 radius_not_negative _ _ _ _ H). left. reflexivity.
Defined.

Lemma rotational_mapping_square_symmetry_witness :
  (4 <= 2 ^ 52)%Z
  /\ Forall (in_image 4) [[0; 1]; [3; 2]]%Z
  /\ _rotational_mapping
       (Int64Array (Array2 2 (map (@rev Z) [[0; 1]; [3; 2]]%Z))) (PyInt 4)
     = _rotational_mapping
         (Int64Array (Array2 2 (map (fun p => p) [[0; 1]; [3; 2]]%Z))) (PyInt 4).
Proof.
  assert (Hb : (4 <= 2 ^ 52)%Z) by lia.
  assert (Hall : Forall (in_image 4) [[0; 1]; [3; 2]]%Z).
  { repeat constructor.
    - exists 0%Z, 1%Z. repeat split; lia.
    - exists 3%Z, 2%Z. repeat split; lia. }
  split; [exact Hb|]. split; [exact Hall|].
  exact (proj1 (rotational_mapping_square_symmetry _ 4 Hb Hall)).
Defined.

Lemma rotational_mapping_centre_witness :
  (0 <= 2)%Z
  /\ (2 * 2 + 1 <= 2 ^ 52)%Z
  /\ _rotational_mapping (Int64Array (Array2 2 [[2; 2]%Z])) (PyInt (2 * 2 + 1))
     = Ok (Array2 2 [[0; 0]%float]).
Proof.
  split; [lia|]. split; [lia|].
  apply (proj1 rotational_mapping_centre 2%Z); lia.
Defined.

Lemma ndrotational_two_columns_witness :
  safe_as_int (PyInt 4) = Ok 4%Z
  /\ ncols (Array2 2 [[0; 3]; [1; 1]]%float) = 2%nat
  /\ wf2 (Array2 2 [[0; 3]; [1; 1]]%float)
  /\ exists coords,
       _rotational_mapping (Float64Array (Array2 2 [[0; 3]; [1; 1]]%float))
         (PyInt 4) = Ok coords
       /\ _ndrotational_mapping (Float64Array (Array2 2 [[0; 3]; [1; 1]]%float))
            (PyInt 4)
          = Ok (Float64Array (Array2 2 (map (@rev float) (rows coords)))).
Proof.
  assert (Hwf : wf2 (Array2 2 [[0; 3]; [1; 1]]%float)) by (repeat constructor).
  split; [reflexivity|]. split; [reflexivity|]. split; [exact Hwf|].
  exact (ndrotational_two_columns (Array2 2 [[0; 3]; [1; 1]]%float) (PyInt 4) 4
           eq_refl eq_refl Hwf).
Defined.

Lemma mapper_columns_witness :
  safe_as_int (PyInt 4) = Ok 4%Z
  /\ _rotational_mapping (Float64Array (Array2 1 [[0]; [1]]%float)) (PyInt 4)
     = Raise IndexError
  /\ _ndrotational_mapping (Float64Array (Array2 0 [[]; []])) (PyInt 4)
     = Raise IndexError.
Proof.
  split; [reflexivity|]. split.
  - apply (mapper_columns (Array2 1 [[0]; [1]]%float) (PyInt 4) 4 eq_refl).
    simpl. lia.
  - apply (mapper_columns (Array2 0 [[]; []]) (PyInt 4) 4 eq_refl).
    reflexivity.
Defined.
